(** * Schema-migration subsystem: Migration units, the ledger, the Manager

    A shallow embedding of [src/database/migrations/Migration.ts] and
    [src/database/migrations/MigrationManager.ts], and the properties of
    version ordering, transactional batches, validation, application,
    rollback and checksums that the specification states about them;
    then the two reading methods of the Manager and the script
    [scripts/migrate-database.ts] that drives it, with further properties
    of the code. *)

From Stdlib Require Import ZArith Lia List Ascii String Sorted Permutation.
From stdpp Require Import base option list strings gmap.

Local Open Scope string_scope.
Local Open Scope Z_scope.
Local Open Scope list_scope.

(** ** JavaScript values used by the version comparator *)

Module JS.

(** A JavaScript number as far as the comparator meets one: an integer, or
    NaN. An integer stands for the double of the same value, which is exact
    up to 2^53 - 1 ([MAX_SAFE_INTEGER]). *)
Inductive number : Type :=
| Num (z : Z)
| NaN.

Definition MAX_SAFE_INTEGER : Z := 2 ^ 53 - 1.

Definition is_digit (c : ascii) : bool :=
  ((48 <=? nat_of_ascii c) && (nat_of_ascii c <=? 57))%nat.

Definition digit_value (c : ascii) : Z := Z.of_nat (nat_of_ascii c) - 48.

(** Value of a string of decimal digits, most significant first; [None] as
    soon as a character is not a digit. *)
Fixpoint digits_value (acc : Z) (s : string) : option Z :=
  match s with
  | EmptyString => Some acc
  | String c s' =>
      if is_digit c then digits_value (10 * acc + digit_value c) s' else None
  end.

(** [Number(s)] on a string: the empty string is 0, a decimal literal is
    its value, a string with any other character is NaN. Signs, exponents,
    hexadecimal literals and surrounding white space, which [Number] also
    accepts, are not part of this fragment. *)
Definition Number (s : string) : number :=
  match digits_value 0 s with
  | Some z => Num z
  | None => NaN
  end.

(** [x || 0] for [x] an array element read at an index: [undefined] (index
    out of range), [NaN] and [0] are falsy and give 0. *)
Definition or_zero (x : option number) : Z :=
  match x with
  | Some (Num z) => z
  | Some NaN => 0
  | None => 0
  end.

(** [s.split(sep)] for a one-character separator: never empty, the empty
    string splits into one empty segment. *)
Fixpoint split (sep : ascii) (s : string) : list string :=
  match s with
  | EmptyString => [EmptyString]
  | String c s' =>
      if Ascii.eqb c sep then EmptyString :: split sep s'
      else match split sep s' with
           | seg :: rest => String c seg :: rest
           | [] => [String c EmptyString]
           end
  end.

(** [Array.prototype.sort(comparefn)]: the specification requires a stable
    sort; for a comparator that is a consistent ordering every stable sort
    returns the same array. It is written here as the stable insertion
    sort: [x] goes before the first element [y] with [comparefn(x, y) <= 0]. *)
Section Sort.
Context {A : Type} (comparefn : A -> A -> Z).

Fixpoint insert (x : A) (l : list A) : list A :=
  match l with
  | [] => [x]
  | y :: l' => if comparefn x y <=? 0 then x :: l else y :: insert x l'
  end.

Fixpoint sort (l : list A) : list A :=
  match l with
  | [] => []
  | x :: l' => insert x (sort l')
  end.
End Sort.

(** [arr.find(p)]: the first element satisfying [p], or [undefined]. *)
Fixpoint find {A : Type} (p : A -> bool) (l : list A) : option A :=
  match l with
  | [] => None
  | x :: l' => if p x then Some x else find p l'
  end.

(** [s.endsWith(suffix)] *)
Fixpoint endsWith (s suffix : string) : bool :=
  String.eqb s suffix ||
  match s with
  | EmptyString => false
  | String _ s' => endsWith s' suffix
  end.

End JS.

(** ** Version comparison ([MigrationManager.compareVersions]) *)

(** The [for] loop of [compareVersions], entered at index [i] with [fuel]
    iterations left before [i] reaches [Math.max(partsA.length, partsB.length)]. *)
Fixpoint compareVersions_loop (partsA partsB : list JS.number) (i fuel : nat) : Z :=
  match fuel with
  | O => 0
  | S fuel' =>
      let numA := JS.or_zero (partsA !! i) in
      let numB := JS.or_zero (partsB !! i) in
      if negb (numA =? numB) then numA - numB
      else compareVersions_loop partsA partsB (S i) fuel'
  end.

Definition compareVersions (a b : string) : Z :=
  let partsA := map JS.Number (JS.split "." a) in
  let partsB := map JS.Number (JS.split "." b) in
  compareVersions_loop partsA partsB 0
    (Nat.max (length partsA) (length partsB)).

(** *** The comparator in the words of the specification *)

(** A numeric segment: a non-empty string of decimal digits denoting a safe
    integer. *)
Definition numeric_segment (s : string) : bool :=
  match s with
  | EmptyString => false
  | _ => match JS.digits_value 0 s with
         | Some z => z <=? JS.MAX_SAFE_INTEGER
         | None => false
         end
  end.

(** A dot-separated numeric version string. *)
Definition numeric_version (v : string) : bool :=
  forallb numeric_segment (JS.split "." v).

(** The integer a segment denotes, read digit by digit. *)
Definition spec_parse_int (s : string) : Z :=
  fold_left (fun acc c => 10 * acc + JS.digit_value c) (list_ascii_of_string s) 0.

(** Segment [i] of a version, an absent segment being 0. *)
Definition spec_segment (v : string) (i : nat) : Z :=
  match JS.split "." v !! i with
  | Some s => spec_parse_int s
  | None => 0
  end.

(** [k] is the first position at which two versions differ. *)
Definition first_difference (a b : string) (k : nat) : Prop :=
  (forall j, (j < k)%nat -> spec_segment a j = spec_segment b j) /\
  spec_segment a k <> spec_segment b k.

(** ** [JSON.stringify] of an object whose values are strings *)

Module JSON.

Definition dquote : ascii := ascii_of_nat 34.
Definition backslash : ascii := ascii_of_nat 92.

Definition hex_digit (n : nat) : ascii :=
  ascii_of_nat (if (n <? 10)%nat then 48 + n else 87 + n).

(** [QuoteJSONString] on one code unit: the two-character escapes, the
    [\u00xx] escape for the other control characters, the character itself
    otherwise. A string is its sequence of UTF-8 bytes; bytes from 0x80 up
    pass through unchanged, as the characters they encode do. *)
Definition escape_char (c : ascii) : string :=
  let n := nat_of_ascii c in
  if (n =? 8)%nat then String backslash "b"
  else if (n =? 9)%nat then String backslash "t"
  else if (n =? 10)%nat then String backslash "n"
  else if (n =? 12)%nat then String backslash "f"
  else if (n =? 13)%nat then String backslash "r"
  else if (n =? 34)%nat then String backslash (String dquote "")
  else if (n =? 92)%nat then String backslash (String backslash "")
  else if (n <? 32)%nat then
    String backslash
      (String "u" (String "0" (String "0"
         (String (hex_digit (n / 16)) (String (hex_digit (n mod 16)) "")))))
  else String c "".

Fixpoint escape (s : string) : string :=
  match s with
  | EmptyString => ""
  | String c s' => escape_char c +:+ escape s'
  end.

Definition quote (s : string) : string :=
  String dquote (escape s +:+ String dquote "").

(** The members of an object literal, in insertion order. *)
Fixpoint members (kvs : list (string * string)) : string :=
  match kvs with
  | [] => ""
  | [(k, v)] => quote k +:+ ":" +:+ quote v
  | (k, v) :: rest => quote k +:+ ":" +:+ quote v +:+ "," +:+ members rest
  end.

Definition stringify (kvs : list (string * string)) : string :=
  "{" +:+ members kvs +:+ "}".

End JSON.

(** ** SHA-256 (FIPS 180-4), as [crypto.createHash('sha256')] computes it *)

Module SHA256.

(** Words are integers modulo 2^32. *)
Definition modulus : Z := Eval vm_compute in 2 ^ 32.

Definition add32 (x y : Z) : Z := (x + y) mod modulus.

Definition rotr (n x : Z) : Z :=
  Z.lor (Z.shiftr x n) (Z.shiftl x (32 - n) mod modulus).

Definition shr (n x : Z) : Z := Z.shiftr x n.

Definition not32 (x : Z) : Z := Z.lxor x 0xffffffff.

Definition Ch (x y z : Z) : Z := Z.lxor (Z.land x y) (Z.land (not32 x) z).

Definition Maj (x y z : Z) : Z :=
  Z.lxor (Z.lxor (Z.land x y) (Z.land x z)) (Z.land y z).

Definition Sigma0 (x : Z) : Z := Z.lxor (Z.lxor (rotr 2 x) (rotr 13 x)) (rotr 22 x).
Definition Sigma1 (x : Z) : Z := Z.lxor (Z.lxor (rotr 6 x) (rotr 11 x)) (rotr 25 x).
Definition sigma0 (x : Z) : Z := Z.lxor (Z.lxor (rotr 7 x) (rotr 18 x)) (shr 3 x).
Definition sigma1 (x : Z) : Z := Z.lxor (Z.lxor (rotr 17 x) (rotr 19 x)) (shr 10 x).

(** The constants are defined from the primes: the first 32 bits of the
    fractional part of the cube root (for [K]) and of the square root (for the
    initial hash value) of each of the first primes. *)
Definition is_prime (n : Z) : bool :=
  forallb (fun d => negb (n mod d =? 0)) (seqZ 2 (Z.sqrt n - 1)).

Definition primes : list Z := List.filter is_prime (seqZ 2 310).

(** The integer cube root, found bit by bit from bit 35 down. *)
Definition cube_root (n : Z) : Z :=
  fold_left (fun r b => let r' := r + 2 ^ b in if r' * r' * r' <=? n then r' else r)
            (rev (seqZ 0 36)) 0.

Definition K : list Z :=
  Eval vm_compute in map (fun p => cube_root (p * 2 ^ 96) mod 2 ^ 32) primes.

(** The eight working variables, and the hash value between blocks. *)
Record registers : Type := Registers {
  ra : Z; rb : Z; rc : Z; rd : Z; re : Z; rf : Z; rg : Z; rh : Z
}.

Definition fractional_sqrt (p : Z) : Z := Z.sqrt (p * 2 ^ 64) mod 2 ^ 32.

Definition H0 : registers :=
  Eval vm_compute in
  Registers (fractional_sqrt 2) (fractional_sqrt 3) (fractional_sqrt 5)
            (fractional_sqrt 7) (fractional_sqrt 11) (fractional_sqrt 13)
            (fractional_sqrt 17) (fractional_sqrt 19).

(** Padding: the bit 1, zero bits up to 56 bytes modulo 64, the bit length on
    64 bits, big-endian. *)
Definition length_bytes (bits : Z) : list Z :=
  map (fun i => Z.shiftr bits (8 * i) mod 256) [7; 6; 5; 4; 3; 2; 1; 0].

Definition pad (msg : list Z) : list Z :=
  let len := Z.of_nat (length msg) in
  let zeros := Z.to_nat ((55 - len) mod 64) in
  msg ++ [0x80] ++ repeat 0 zeros ++ length_bytes (8 * len).

Fixpoint words_of_bytes (bytes : list Z) : list Z :=
  match bytes with
  | b0 :: b1 :: b2 :: b3 :: rest =>
      (((b0 * 256 + b1) * 256 + b2) * 256 + b3) :: words_of_bytes rest
  | _ => []
  end.

(** The message schedule beyond the first 16 words; [window] holds the 16
    most recent words. *)
Fixpoint expand (n : nat) (window : list Z) : list Z :=
  match n with
  | O => []
  | S n' =>
      let w := add32 (add32 (sigma1 (nth 14 window 0)) (nth 9 window 0))
                     (add32 (sigma0 (nth 1 window 0)) (nth 0 window 0)) in
      w :: expand n' (tl window ++ [w])
  end.

Definition schedule (block : list Z) : list Z := block ++ expand 48 block.

Definition round (r : registers) (kw : Z * Z) : registers :=
  let T1 := add32 (add32 (add32 (rh r) (Sigma1 (re r))) (Ch (re r) (rf r) (rg r)))
                  (add32 (fst kw) (snd kw)) in
  let T2 := add32 (Sigma0 (ra r)) (Maj (ra r) (rb r) (rc r)) in
  Registers (add32 T1 T2) (ra r) (rb r) (rc r) (add32 (rd r) T1) (re r) (rf r) (rg r).

Definition compress (h : registers) (block : list Z) : registers :=
  let r := fold_left round (combine K (schedule block)) h in
  Registers (add32 (ra h) (ra r)) (add32 (rb h) (rb r)) (add32 (rc h) (rc r))
            (add32 (rd h) (rd r)) (add32 (re h) (re r)) (add32 (rf h) (rf r))
            (add32 (rg h) (rg r)) (add32 (rh h) (rh r)).

(** The blocks of 16 words; [n] bounds their number. *)
Fixpoint blocks (n : nat) (words : list Z) : list (list Z) :=
  match n, words with
  | S n', _ :: _ => firstn 16 words :: blocks n' (skipn 16 words)
  | _, _ => []
  end.

Definition hash (msg : list Z) : registers :=
  let words := words_of_bytes (pad msg) in
  fold_left compress (blocks (length words) words) H0.

(** The digest as one 256-bit number, most significant word first. *)
Definition digest (msg : list Z) : Z :=
  let h := hash msg in
  fold_left (fun acc w => acc * 2 ^ 32 + w)
    [ra h; rb h; rc h; rd h; re h; rf h; rg h; rh h] 0.

(** [n] lower-case hexadecimal digits of [z], most significant first. *)
Fixpoint to_hex (n : nat) (z : Z) (acc : string) : string :=
  match n with
  | O => acc
  | S n' => to_hex n' (z / 16) (String (JSON.hex_digit (Z.to_nat (z mod 16))) acc)
  end.

(** The bytes handed to [update]: the UTF-8 encoding of the string. *)
Definition bytes_of_string (s : string) : list Z :=
  map (fun c => Z.of_nat (nat_of_ascii c)) (list_ascii_of_string s).

(** [createHash('sha256').update(s).digest('hex')] *)
Definition hexdigest (s : string) : string :=
  to_hex 64 (digest (bytes_of_string s)) "".

End SHA256.

(** ** Migration descriptors and units ([Migration.ts]) *)

Record MigrationMeta : Type := {
  meta_id : string;
  meta_name : string;
  meta_description : string;
  meta_version : string;
  meta_dependencies : option (list string)
}.

(** A concrete unit, as the repository writes them: [up] and [down] each
    build a list of statements and hand it to [executeBatch]. *)
Record Migration : Type := {
  meta : MigrationMeta;
  up_queries : list string;
  down_queries : list string
}.

(** ** The database collaborator *)

(** A row of the [migrations] table, without its primary key [id], under
    which the table holds it. [applied_at], filled by the database with the
    time of insertion, is left out. *)
Record LedgerRow : Type := {
  row_name : string;
  row_version : string;
  row_checksum : string;
  row_description : string;
  row_dependencies : list string
}.

(** The database: the schema, kept as the sequence of migration statements
    that have taken effect, and the [migrations] table, absent or a map from
    its primary key [id] to the row. *)
Record database : Type := {
  schema : list string;
  ledger : option (gmap string LedgerRow)
}.

(** The statements the program sends. *)
Inductive sql : Type :=
| SqlTableExists
| SqlCreateLedger
| SqlSelectId (id : string)
| SqlInsert (id : string) (row : LedgerRow)
| SqlDelete (id : string)
| SqlBegin
| SqlCommit
| SqlRollback
| SqlText (q : string).

Inductive error : Type :=
| DatabaseError (q : sql)
| ConnectionError
| ReaddirError
| ImportError (file : string)
| Error (message : string).

Inductive method : Type :=
| Validate | Up | Down | RecordMigration | RemoveMigrationRecord.

(** What an observer of a run sees, in order: the entry into a method of a
    unit, a statement handed to the driver, a client taken from or returned
    to the pool, a console line. *)
Inductive event : Type :=
| Invoked (f : method) (unit : Migration)
| Query (q : sql)
| Connect
| Release
| ConsoleLog (line : string)
| ConsoleError (line : string) (e : error).

(** The state a run threads: the Manager's private [migrations] array; the
    database, with the snapshot taken by [BEGIN] while a transaction is open;
    [faults], which decides for each request made of the database in turn,
    a statement sent or a client asked of the pool, whether it fails for a
    reason outside this model ([true]; an exhausted list fails none); and
    the trace of events, oldest first. *)
Record state : Type := State {
  migrations : list Migration;
  db : database;
  snapshot : option database;
  faults : list bool;
  trace : list event
}.

Definition set_migrations (ms : list Migration) (s : state) : state :=
  State ms (db s) (snapshot s) (faults s) (trace s).
Definition set_db (d : database) (s : state) : state :=
  State (migrations s) d (snapshot s) (faults s) (trace s).
Definition set_snapshot (o : option database) (s : state) : state :=
  State (migrations s) (db s) o (faults s) (trace s).
Definition set_faults (fs : list bool) (s : state) : state :=
  State (migrations s) (db s) (snapshot s) fs (trace s).
Definition record_event (e : event) (s : state) : state :=
  State (migrations s) (db s) (snapshot s) (faults s) (trace s ++ [e]).

(** ** Asynchronous functions: a state transformer that resolves or rejects *)

Inductive outcome (A : Type) : Type :=
| Resolved (a : A)
| Rejected (e : error).
Arguments Resolved {A} a.
Arguments Rejected {A} e.

Definition Async (A : Type) : Type := state -> outcome A * state.

Definition ret {A : Type} (a : A) : Async A := fun s => (Resolved a, s).

Definition throw {A : Type} (e : error) : Async A := fun s => (Rejected e, s).

Definition bind {A B : Type} (m : Async A) (k : A -> Async B) : Async B :=
  fun s =>
    match m s with
    | (Resolved a, s') => k a s'
    | (Rejected e, s') => (Rejected e, s')
    end.

Notation "'let*' x ':=' m 'in' k" := (bind m (fun x => k))
  (at level 10, x name, m at level 100, k at level 200, only parsing).
Notation "m >> k" := (bind m (fun _ => k))
  (at level 100, k at level 200, right associativity, only parsing).

(** [try { body } catch (error) { handler }] *)
Definition try_catch {A : Type} (body : Async A) (handler : error -> Async A) : Async A :=
  fun s =>
    match body s with
    | (Resolved a, s') => (Resolved a, s')
    | (Rejected e, s') => handler e s'
    end.

(** [try { body } finally { cleanup }], for a cleanup that does not throw *)
Definition finally {A : Type} (body : Async A) (cleanup : Async unit) : Async A :=
  fun s =>
    match body s with
    | (r, s') => (r, snd (cleanup s'))
    end.

Definition emit (e : event) : Async unit :=
  fun s => (Resolved tt, record_event e s).

Definition console_log (line : string) : Async unit := emit (ConsoleLog line).
Definition console_error (line : string) (e : error) : Async unit :=
  emit (ConsoleError line e).

(** A statement handed to the driver. The database raises an error if
    [faults] says so or if the statement cannot run on the current contents
    ([run] gives [None]); a statement that raises changes nothing. *)
Definition send {A : Type} (q : sql) (run : database -> option (A * database)) : Async A :=
  fun s =>
    let s1 := record_event (Query q) s in
    match faults s1 with
    | true :: fs => (Rejected (DatabaseError q), set_faults fs s1)
    | fs =>
        let s2 := set_faults (tl fs) s1 in
        match run (db s2) with
        | Some (a, d) => (Resolved a, set_db d s2)
        | None => (Rejected (DatabaseError q), s2)
        end
    end.

(** [pool.connect()]: the pool hands out a client, or rejects when [faults]
    says so, and then no client is taken. The client handed out has no
    transaction in progress. *)
Definition pool_connect : Async unit :=
  fun s =>
    match faults s with
    | true :: fs => (Rejected ConnectionError, set_faults fs s)
    | fs => (Resolved tt, set_snapshot None (record_event Connect (set_faults (tl fs) s)))
    end.

(** [client.release()] *)
Definition client_release : Async unit := emit Release.

(** The transaction control statements, sent like any statement: each can
    raise an error, and then does nothing. [BEGIN] keeps a snapshot,
    [ROLLBACK] restores it, [COMMIT] drops it. *)
Definition client_begin : Async unit :=
  send SqlBegin (fun d => Some (tt, d)) >>
  (fun s => (Resolved tt, set_snapshot (Some (db s)) s)).

Definition client_commit : Async unit :=
  send SqlCommit (fun d => Some (tt, d)) >>
  (fun s => (Resolved tt, set_snapshot None s)).

Definition client_rollback : Async unit :=
  send SqlRollback (fun d => Some (tt, d)) >>
  (fun s =>
     (Resolved tt,
      set_snapshot None (match snapshot s with Some d => set_db d s | None => s end))).

(** A statement of a migration. Its effect on the schema is to be added to
    the statements that took effect; the statements of a migration are taken
    not to touch the [migrations] table. *)
Definition client_query (q : string) : Async unit :=
  send (SqlText q) (fun d => Some (tt, {| schema := schema d ++ [q]; ledger := ledger d |})).

(** The statements on the [migrations] table. *)

(** [SELECT EXISTS (... table_name = 'migrations')] *)
Definition query_table_exists : Async bool :=
  send SqlTableExists
    (fun d => Some (match ledger d with Some _ => true | None => false end, d)).

(** [CREATE TABLE migrations (...); CREATE INDEX ...; CREATE INDEX ...], one
    implicit transaction; fails if the table exists. *)
Definition query_create_ledger : Async unit :=
  send SqlCreateLedger
    (fun d => match ledger d with
              | Some _ => None
              | None => Some (tt, {| schema := schema d; ledger := Some ∅ |})
              end).

(** [SELECT id FROM migrations WHERE id = $1]; gives the rows. *)
Definition query_select_id (id : string) : Async (list string) :=
  send (SqlSelectId id)
    (fun d => match ledger d with
              | Some rows => Some (match rows !! id with
                                   | Some _ => [id]
                                   | None => []
                                   end, d)
              | None => None
              end).

(** [INSERT INTO migrations ... VALUES ...]; fails on a duplicate key. *)
Definition query_insert (id : string) (row : LedgerRow) : Async unit :=
  send (SqlInsert id row)
    (fun d => match ledger d with
              | Some rows =>
                  match rows !! id with
                  | Some _ => None
                  | None => Some (tt, {| schema := schema d;
                                         ledger := Some (<[id := row]> rows) |})
                  end
              | None => None
              end).

(** [DELETE FROM migrations WHERE id = $1] *)
Definition query_delete (id : string) : Async unit :=
  send (SqlDelete id)
    (fun d => match ledger d with
              | Some rows => Some (tt, {| schema := schema d;
                                          ledger := Some (delete id rows) |})
              | None => None
              end).

(** ** The methods of [Migration]

    Each method first records its entry in the trace. *)

Definition validate (this : Migration) : Async bool :=
  emit (Invoked Validate this) >>
  try_catch
    (let* tableExists := query_table_exists in
     (if negb tableExists then query_create_ledger else ret tt) >>
     let* rows := query_select_id (meta_id (meta this)) in
     ret (length rows =? 0)%nat)
    (fun error =>
       console_error "Migration validation failed:" error >>
       ret false).

Fixpoint run_queries (queries : list string) : Async unit :=
  match queries with
  | [] => ret tt
  | query :: rest => client_query query >> run_queries rest
  end.

Definition executeBatch (queries : list string) : Async unit :=
  pool_connect >>
  finally
    (try_catch
       (client_begin >> run_queries queries >> client_commit)
       (fun error => client_rollback >> throw error))
    client_release.

Definition up (this : Migration) : Async unit :=
  emit (Invoked Up this) >> executeBatch (up_queries this).

Definition down (this : Migration) : Async unit :=
  emit (Invoked Down this) >> executeBatch (down_queries this).

Definition recordMigration (this : Migration) (checksum : string) : Async unit :=
  emit (Invoked RecordMigration this) >>
  query_insert (meta_id (meta this))
    {| row_name := meta_name (meta this);
       row_version := meta_version (meta this);
       row_checksum := checksum;
       row_description := meta_description (meta this);
       row_dependencies := default [] (meta_dependencies (meta this)) |}.

Definition removeMigrationRecord (this : Migration) : Async unit :=
  emit (Invoked RemoveMigrationRecord this) >>
  query_delete (meta_id (meta this)).

(** ** The methods of [MigrationManager] *)

Definition get_migrations : Async (list Migration) :=
  fun s => (Resolved (migrations s), s).

Definition generateChecksum (migration : Migration) : string :=
  let content :=
    JSON.stringify
      [ ("id", meta_id (meta migration));
        ("name", meta_name (meta migration));
        ("version", meta_version (meta migration));
        ("description", meta_description (meta migration)) ] in
  SHA256.hexdigest content.
Arguments generateChecksum : simpl never.

(** The directory [versions]: its listing, or nothing if it cannot be read;
    with each file name, the unit its default export constructs, or nothing
    if importing or constructing it throws. *)
Definition directory : Type := option (list (string * option Migration)).

Definition is_migration_file (f : string) : bool :=
  JS.endsWith f ".ts" || JS.endsWith f ".js".

(** The loop over [migrationFiles]: each unit is pushed as it is built. *)
Fixpoint import_all (files : list (string * option Migration)) : Async unit :=
  match files with
  | [] => ret tt
  | (file, Some migration) :: rest =>
      (fun s => (Resolved tt, set_migrations (migrations s ++ [migration]) s)) >>
      import_all rest
  | (file, None) :: _ => throw (ImportError file)
  end.

Definition loadMigrations (dir : directory) : Async unit :=
  try_catch
    (match dir with
     | None => throw ReaddirError
     | Some files =>
         let migrationFiles := List.filter (fun f => is_migration_file (fst f)) files in
         import_all migrationFiles >>
         (fun s =>
            (Resolved tt,
             set_migrations
               (JS.sort (fun a b => compareVersions (meta_version (meta a))
                                                    (meta_version (meta b)))
                        (migrations s)) s))
     end)
    (fun error =>
       console_error "Failed to load migrations:" error >>
       throw error).

(** The body of the loop of [applyMigrations]. *)
Definition apply_one (migration : Migration) : Async unit :=
  try_catch
    (let* canApply := validate migration in
     if canApply then
       console_log ("Applying migration: " +:+ meta_name (meta migration) +:+ " ("
                    +:+ meta_version (meta migration) +:+ ")") >>
       let checksum := generateChecksum migration in
       up migration >>
       recordMigration migration checksum >>
       console_log ("Successfully applied migration: " +:+ meta_name (meta migration))
     else ret tt)
    (fun error =>
       console_error ("Failed to apply migration " +:+ meta_name (meta migration) +:+ ":")
                     error >>
       throw error).

Fixpoint for_each {A : Type} (body : A -> Async unit) (l : list A) : Async unit :=
  match l with
  | [] => ret tt
  | x :: rest => body x >> for_each body rest
  end.

Definition applyMigrations : Async unit :=
  let* ms := get_migrations in
  for_each apply_one ms.

Definition rollbackMigration (version : string) : Async unit :=
  let* ms := get_migrations in
  match JS.find (fun m => String.eqb (meta_version (meta m)) version) ms with
  | None => throw (Error ("Migration version " +:+ version +:+ " not found"))
  | Some migration =>
      try_catch
        (console_log ("Rolling back migration: " +:+ meta_name (meta migration) +:+ " ("
                      +:+ version +:+ ")") >>
         down migration >>
         removeMigrationRecord migration >>
         console_log ("Successfully rolled back migration: "
                      +:+ meta_name (meta migration)))
        (fun error =>
           console_error ("Failed to rollback migration " +:+ version +:+ ":") error >>
           throw error)
  end.

(** ** Auxiliary notions used in the statements *)

(** *** Versions and listings *)

(** Segment [i] of a version as the loop of [compareVersions] reads it. *)
Definition code_segment (v : string) (i : nat) : Z :=
  JS.or_zero (map JS.Number (JS.split "." v) !! i).

(** The order on versions read as sequences of segments: equal everywhere, or
    smaller at the first position where they differ. *)
Definition segments_le (f g : nat -> Z) : Prop :=
  (forall j, f j = g j) \/
  exists k, (forall j, (j < k)%nat -> f j = g j) /\ f k < g k.

(** The comparator the Manager sorts with, and the order it induces. *)
Definition by_version (a b : Migration) : Z :=
  compareVersions (meta_version (meta a)) (meta_version (meta b)).

Definition version_le (a b : Migration) : Prop := by_version a b <= 0.

(** [x] may stand before [y] in an array sorted with [comparefn]. *)
Definition no_later {A : Type} (comparefn : A -> A -> Z) (x y : A) : Prop :=
  comparefn x y <= 0.

(** The units that the files of a listing construct, in listing order. *)
Fixpoint discovered (files : list (string * option Migration)) : list Migration :=
  match files with
  | [] => []
  | (f, Some m) :: rest =>
      if is_migration_file f then m :: discovered rest else discovered rest
  | (f, None) :: rest => discovered rest
  end.

(** *** Traces *)

(** Equality of methods, computed. *)
Definition method_eqb (f g : method) : bool :=
  match f, g with
  | Validate, Validate | Up, Up | Down, Down
  | RecordMigration, RecordMigration
  | RemoveMigrationRecord, RemoveMigrationRecord => true
  | _, _ => false
  end.

(** The units on which method [f] was entered, in order. *)
Fixpoint calls (f : method) (t : list event) : list Migration :=
  match t with
  | [] => []
  | Invoked g m :: t' => if method_eqb f g then m :: calls f t' else calls f t'
  | _ :: t' => calls f t'
  end.

(** The method entries of a trace, in order. *)
Fixpoint invocations (t : list event) : list (method * Migration) :=
  match t with
  | [] => []
  | Invoked f m :: t' => (f, m) :: invocations t'
  | _ :: t' => invocations t'
  end.

(** The statements handed to the driver, in order. *)
Fixpoint queries_sent (t : list event) : list sql :=
  match t with
  | [] => []
  | Query q :: t' => q :: queries_sent t'
  | _ :: t' => queries_sent t'
  end.

(** A statement that reads the ledger. *)
Definition reads_ledger (q : sql) : bool :=
  match q with
  | SqlTableExists | SqlSelectId _ => true
  | _ => false
  end.

(** The number of [console.error] lines in a trace. *)
Fixpoint error_count (t : list event) : nat :=
  match t with
  | [] => 0
  | ConsoleError _ _ :: t' => S (error_count t')
  | _ :: t' => error_count t'
  end.

(** *** Batches *)

(** The statements of a batch that run before the database first raises an
    error, and the statement at which it does, if any. *)
Fixpoint batch_applied (fs : list bool) (queries : list string) : list string :=
  match queries with
  | [] => []
  | q :: rest =>
      match fs with
      | true :: _ => []
      | _ => q :: batch_applied (tl fs) rest
      end
  end.

Fixpoint first_fault (fs : list bool) (queries : list string) : option string :=
  match queries with
  | [] => None
  | q :: rest =>
      match fs with
      | true :: _ => Some q
      | _ => first_fault (tl fs) rest
      end
  end.

Definition batch_attempted (fs : list bool) (queries : list string) : list string :=
  batch_applied fs queries ++ option_list (first_fault fs queries).

(** How a run of [executeBatch] ends: no client could be taken; or every
    request went through; or, after the requests [accepted], the database
    raised an error at the request [q], and then [ROLLBACK] went through
    ([RolledBack]) or raised an error too ([LeftOpen]). *)
Inductive batch_end : Type :=
| NoClient
| Committed
| RolledBack (accepted : list sql) (q : sql)
| LeftOpen (accepted : list sql) (q : sql).

(** None of the next [n] requests made of the database is refused. *)
Definition no_fault (n : nat) (fs : list bool) : bool := forallb negb (take n fs).

(** The next request made of the database is refused. *)
Definition refuses (fs : list bool) : bool :=
  match fs with
  | true :: _ => true
  | _ => false
  end.

(** The catch block, entered with the faults [fs] still ahead. *)
Definition after_refusal (accepted : list sql) (q : sql) (fs : list bool) : batch_end :=
  if refuses fs then LeftOpen accepted q else RolledBack accepted q.

(** The end of a batch as [faults] decides it: the first fault is for
    [pool.connect()], the next for [BEGIN], the next for the statements in
    turn, then [COMMIT]; after the first request refused, the next is for
    [ROLLBACK]. *)
Definition batch_end_of (fs : list bool) (queries : list string) : batch_end :=
  if refuses fs then NoClient
  else if refuses (drop 1 fs) then after_refusal [] SqlBegin (drop 2 fs)
  else
    let fs2 := drop 2 fs in
    match first_fault fs2 queries with
    | Some q =>
        after_refusal (SqlBegin :: map SqlText (batch_applied fs2 queries)) (SqlText q)
                      (drop (length (batch_attempted fs2 queries)) fs2)
    | None =>
        if refuses (drop (length queries) fs2)
        then after_refusal (SqlBegin :: map SqlText queries) SqlCommit
                           (drop (S (length queries)) fs2)
        else Committed
    end.

(** The statements of a migration among the requests [l]. *)
Fixpoint statements_of (l : list sql) : list string :=
  match l with
  | [] => []
  | SqlText q :: l' => q :: statements_of l'
  | _ :: l' => statements_of l'
  end.

(** What [executeBatch] resolves or rejects with; the statements it sends;
    what it leaves in the trace, in the database and of the transaction;
    and the number of faults it uses up. *)
Definition batch_outcome (e : batch_end) : outcome unit :=
  match e with
  | NoClient => Rejected ConnectionError
  | Committed => Resolved tt
  | RolledBack _ q => Rejected (DatabaseError q)
  | LeftOpen _ _ => Rejected (DatabaseError SqlRollback)
  end.

Definition batch_sent (queries : list string) (e : batch_end) : list sql :=
  match e with
  | NoClient => []
  | Committed => SqlBegin :: map SqlText queries ++ [SqlCommit]
  | RolledBack accepted q | LeftOpen accepted q => accepted ++ [q; SqlRollback]
  end.

Definition batch_trace (queries : list string) (e : batch_end) : list event :=
  match e with
  | NoClient => []
  | _ => Connect :: map Query (batch_sent queries e) ++ [Release]
  end.

Definition batch_database (queries : list string) (e : batch_end) (d : database) : database :=
  match e with
  | Committed => {| schema := schema d ++ queries; ledger := ledger d |}
  | LeftOpen accepted _ => {| schema := schema d ++ statements_of accepted; ledger := ledger d |}
  | NoClient | RolledBack _ _ => d
  end.

Definition batch_snapshot (e : batch_end) (d : database) (before : option database)
  : option database :=
  match e with
  | NoClient => before
  | Committed | RolledBack _ _ | LeftOpen [] _ => None
  | LeftOpen (_ :: _) _ => Some d
  end.

Definition batch_faults_used (queries : list string) (e : batch_end) : nat :=
  match e with
  | NoClient => 1
  | _ => S (length (batch_sent queries e))
  end.

(** A request of the batch [queries] that the database can refuse: [BEGIN],
    one of the statements, or [COMMIT]. *)
Definition batch_request (queries : list string) (q : sql) : Prop :=
  q = SqlBegin \/ q = SqlCommit \/ exists text, q = SqlText text /\ In text queries.

(** An error that a run of the batch [queries] can reject with: no client,
    the error of a request of the batch, or that of [ROLLBACK]. *)
Definition batch_error (queries : list string) (e : error) : Prop :=
  e = ConnectionError \/
  e = DatabaseError SqlRollback \/
  exists q, e = DatabaseError q /\ batch_request queries q.

(** All or nothing, for a run [m] of the batch [queries] from state [s],
    as far as it goes. When every request is accepted, that is the client,
    [BEGIN], the statements and [COMMIT], the run resolves,
    every statement has taken effect in order, and the last statement sent
    is [COMMIT]. When no client can be taken the run rejects with that
    error and nothing is sent. When the database raises an error at
    [BEGIN], at a statement or at [COMMIT], [ROLLBACK] is sent last; if it
    is accepted the run rejects with the error of the request that failed
    and the database is as it was; if it is refused the run rejects with
    the error of [ROLLBACK] instead. The [migrations] table is never
    touched, and a transaction stays open only in the last case. *)
Definition all_or_nothing (queries : list string) (m : Async unit) (s : state) : Prop :=
  exists r s',
    m s = (r, s') /\
    ledger (db s') = ledger (db s) /\
    (no_fault (length queries + 3) (faults s) = true <->
     batch_end_of (faults s) queries = Committed) /\
    match batch_end_of (faults s) queries with
    | Committed =>
        r = Resolved tt /\
        schema (db s') = schema (db s) ++ queries /\
        snapshot s' = None /\
        last (queries_sent (trace s')) = Some SqlCommit
    | NoClient =>
        r = Rejected ConnectionError /\
        db s' = db s /\
        queries_sent (trace s') = queries_sent (trace s)
    | RolledBack _ q =>
        r = Rejected (DatabaseError q) /\
        batch_request queries q /\
        db s' = db s /\
        snapshot s' = None /\
        last (queries_sent (trace s')) = Some SqlRollback
    | LeftOpen _ q =>
        r = Rejected (DatabaseError SqlRollback) /\
        batch_request queries q /\
        last (queries_sent (trace s')) = Some SqlRollback
    end.

(** *** The ledger and the console *)

(** The number of statements [validate] sends when none raises an error:
    the check for the table, its creation if it is missing, the look-up. *)
Definition validate_statements (d : database) : nat :=
  match ledger d with
  | Some _ => 2
  | None => 3
  end.

(** The predicate [rollbackMigration] hands to [find]. *)
Definition has_version (version : string) (m : Migration) : bool :=
  String.eqb (meta_version (meta m)) version.

(** The row [recordMigration] inserts for a unit. *)
Definition ledger_row (m : Migration) (checksum : string) : LedgerRow :=
  {| row_name := meta_name (meta m);
     row_version := meta_version (meta m);
     row_checksum := checksum;
     row_description := meta_description (meta m);
     row_dependencies := default [] (meta_dependencies (meta m)) |}.

(** The ledger table exists and holds a row under [id]. *)
Definition recorded (id : string) (d : database) : Prop :=
  exists rows, ledger d = Some rows /\ is_Some (rows !! id).

(** [recorded], computed. *)
Definition recordedb (id : string) (d : database) : bool :=
  match ledger d with
  | Some rows => match rows !! id with Some _ => true | None => false end
  | None => false
  end.

(** The messages of [applyMigrations]. *)
Definition applying_message (m : Migration) : string :=
  "Applying migration: " +:+ meta_name (meta m) +:+ " ("
  +:+ meta_version (meta m) +:+ ")".

Definition applied_message (m : Migration) : string :=
  "Successfully applied migration: " +:+ meta_name (meta m).

Definition apply_failed_message (m : Migration) : string :=
  "Failed to apply migration " +:+ meta_name (meta m) +:+ ":".

(** *** Checksums *)

(** The string [generateChecksum] hashes. *)
Definition checksum_content (migration : Migration) : string :=
  JSON.stringify
    [ ("id", meta_id (meta migration));
      ("name", meta_name (meta migration));
      ("version", meta_version (meta migration));
      ("description", meta_description (meta migration)) ].

(** Reading back the first character of an escaped string: the inverse of
    [JSON.escape_char]. *)
Definition hex_value (c : ascii) : nat :=
  let n := nat_of_ascii c in
  if (n <? 58)%nat then (n - 48)%nat else (n - 87)%nat.

Definition unescape_head (s : string) : option (ascii * string) :=
  match s with
  | EmptyString => None
  | String c rest =>
      if Ascii.eqb c JSON.backslash then
        match rest with
        | String x rest' =>
            if Ascii.eqb x "b" then Some (ascii_of_nat 8, rest')
            else if Ascii.eqb x "t" then Some (ascii_of_nat 9, rest')
            else if Ascii.eqb x "n" then Some (ascii_of_nat 10, rest')
            else if Ascii.eqb x "f" then Some (ascii_of_nat 12, rest')
            else if Ascii.eqb x "r" then Some (ascii_of_nat 13, rest')
            else if Ascii.eqb x JSON.dquote then Some (JSON.dquote, rest')
            else if Ascii.eqb x JSON.backslash then Some (JSON.backslash, rest')
            else
              match rest' with
              | String _ (String _ (String h1 (String h2 rest''))) =>
                  Some (ascii_of_nat (16 * hex_value h1 + hex_value h2), rest'')
              | _ => None
              end
        | EmptyString => None
        end
      else if Ascii.eqb c JSON.dquote then None
      else Some (c, rest)
  end.

(** A positive number in binary, least significant digit first; distinct
    numbers give distinct strings. *)
Fixpoint binary_digits (p : positive) : string :=
  match p with
  | xH => "1"
  | xO p' => String "0" (binary_digits p')
  | xI p' => String "1" (binary_digits p')
  end.

Definition binary_numeral (z : Z) : string :=
  match z with
  | Zpos p => binary_digits p
  | _ => ""
  end.

(** Every register is a 32-bit word. *)
Definition word32 (x : Z) : Prop := 0 <= x < 2 ^ 32.

Definition registers_bounded (r : SHA256.registers) : Prop :=
  word32 (SHA256.ra r) /\ word32 (SHA256.rb r) /\ word32 (SHA256.rc r) /\
  word32 (SHA256.rd r) /\ word32 (SHA256.re r) /\ word32 (SHA256.rf r) /\
  word32 (SHA256.rg r) /\ word32 (SHA256.rh r).

(** ** The units of the repository, further units and states for the examples

    The statements of the two units of the repository are the template
    strings of the source, character for character, line breaks and
    indentation included. *)

Definition StrategyManagementMigration : Migration :=
  {| meta :=
       {| meta_id := "001_strategy_management";
          meta_name := "Strategy Management and Feedback";
          meta_description :=
            "Adds tables for strategy versioning, activation/deactivation, and feedback tracking";
          meta_version := "1.0.0";
          meta_dependencies := None |};
     up_queries :=
       [ "CREATE TABLE strategy_versions (
                id SERIAL PRIMARY KEY,
                strategy_id INTEGER REFERENCES analysis_strategies(id),
                version TEXT NOT NULL,
                implementation JSONB NOT NULL,
                created_at TIMESTAMP WITH TIME ZONE DEFAULT CURRENT_TIMESTAMP,
                metadata JSONB,
                UNIQUE(strategy_id, version)
            )";
         "CREATE TABLE strategy_activations (
                id SERIAL PRIMARY KEY,
                strategy_id INTEGER REFERENCES analysis_strategies(id),
                version_id INTEGER REFERENCES strategy_versions(id),
                status TEXT NOT NULL CHECK (status IN ('activated', 'deactivated')),
                reason TEXT,
                activated_at TIMESTAMP WITH TIME ZONE DEFAULT CURRENT_TIMESTAMP,
                activated_by TEXT,
                metadata JSONB
            )";
         "CREATE TABLE strategy_feedback (
                id SERIAL PRIMARY KEY,
                strategy_id INTEGER REFERENCES analysis_strategies(id),
                version_id INTEGER REFERENCES strategy_versions(id),
                result_id INTEGER REFERENCES analysis_results(id),
                feedback_type TEXT NOT NULL CHECK (feedback_type IN ('success', 'failure', 'improvement')),
                feedback_data JSONB NOT NULL,
                created_at TIMESTAMP WITH TIME ZONE DEFAULT CURRENT_TIMESTAMP,
                user_context JSONB,
                metadata JSONB
            )";
         "CREATE TABLE strategy_metrics (
                id SERIAL PRIMARY KEY,
                strategy_id INTEGER REFERENCES analysis_strategies(id),
                version_id INTEGER REFERENCES strategy_versions(id),
                metric_type TEXT NOT NULL,
                metric_value NUMERIC NOT NULL,
                measured_at TIMESTAMP WITH TIME ZONE DEFAULT CURRENT_TIMESTAMP,
                context JSONB,
                metadata JSONB
            )";
         "CREATE INDEX idx_strategy_versions_strategy_id ON strategy_versions(strategy_id)";
         "CREATE INDEX idx_strategy_versions_version ON strategy_versions(version)";
         "CREATE INDEX idx_strategy_activations_strategy_id ON strategy_activations(strategy_id)";
         "CREATE INDEX idx_strategy_activations_version_id ON strategy_activations(version_id)";
         "CREATE INDEX idx_strategy_feedback_strategy_id ON strategy_feedback(strategy_id)";
         "CREATE INDEX idx_strategy_feedback_version_id ON strategy_feedback(version_id)";
         "CREATE INDEX idx_strategy_feedback_result_id ON strategy_feedback(result_id)";
         "CREATE INDEX idx_strategy_metrics_strategy_id ON strategy_metrics(strategy_id)";
         "CREATE INDEX idx_strategy_metrics_version_id ON strategy_metrics(version_id)";
         "CREATE INDEX idx_strategy_metrics_metric_type ON strategy_metrics(metric_type)";
         "CREATE OR REPLACE FUNCTION update_strategy_activation()
            RETURNS TRIGGER AS $$
            BEGIN
                INSERT INTO strategy_activations (
                    strategy_id,
                    version_id,
                    status,
                    reason,
                    activated_by,
                    metadata
                ) VALUES (
                    NEW.strategy_id,
                    NEW.id,
                    'activated',
                    'Initial version activation',
                    current_user,
                    jsonb_build_object('automatic', true)
                );
                RETURN NEW;
            END;
            $$ LANGUAGE plpgsql;";
         "CREATE TRIGGER strategy_version_activation
            AFTER INSERT ON strategy_versions
            FOR EACH ROW
            EXECUTE FUNCTION update_strategy_activation();" ];
     down_queries :=
       [ "DROP TRIGGER IF EXISTS strategy_version_activation ON strategy_versions";
         "DROP FUNCTION IF EXISTS update_strategy_activation()";
         "DROP TABLE IF EXISTS strategy_metrics";
         "DROP TABLE IF EXISTS strategy_feedback";
         "DROP TABLE IF EXISTS strategy_activations";
         "DROP TABLE IF EXISTS strategy_versions" ] |}.

Definition QueryOptimizationMigration : Migration :=
  {| meta :=
       {| meta_id := "002_query_optimization";
          meta_name := "Query Optimization and Performance Tracking";
          meta_description :=
            "Adds tables and functions for query optimization and performance monitoring";
          meta_version := "1.0.1";
          meta_dependencies := Some ["001_strategy_management"] |};
     up_queries :=
       [ "CREATE TABLE query_performance (
                id SERIAL PRIMARY KEY,
                query_hash TEXT NOT NULL,
                query_text TEXT NOT NULL,
                execution_time NUMERIC NOT NULL,
                rows_affected INTEGER,
                query_plan JSONB,
                context_id INTEGER REFERENCES diagnostic_contexts(id),
                created_at TIMESTAMP WITH TIME ZONE DEFAULT CURRENT_TIMESTAMP,
                metadata JSONB
            )";
         "CREATE TABLE query_optimizations (
                id SERIAL PRIMARY KEY,
                query_hash TEXT NOT NULL,
                suggestion_type TEXT NOT NULL,
                suggestion TEXT NOT NULL,
                impact_estimate JSONB,
                implemented BOOLEAN DEFAULT FALSE,
                created_at TIMESTAMP WITH TIME ZONE DEFAULT CURRENT_TIMESTAMP,
                implemented_at TIMESTAMP WITH TIME ZONE,
                metadata JSONB
            )";
         "CREATE TABLE performance_thresholds (
                id SERIAL PRIMARY KEY,
                metric_name TEXT NOT NULL,
                warning_threshold NUMERIC NOT NULL,
                critical_threshold NUMERIC NOT NULL,
                aggregation_period INTERVAL NOT NULL,
                created_at TIMESTAMP WITH TIME ZONE DEFAULT CURRENT_TIMESTAMP,
                updated_at TIMESTAMP WITH TIME ZONE DEFAULT CURRENT_TIMESTAMP,
                metadata JSONB,
                UNIQUE(metric_name)
            )";
         "CREATE TABLE performance_alerts (
                id SERIAL PRIMARY KEY,
                threshold_id INTEGER REFERENCES performance_thresholds(id),
                alert_level TEXT NOT NULL CHECK (alert_level IN ('warning', 'critical')),
                metric_value NUMERIC NOT NULL,
                context JSONB,
                created_at TIMESTAMP WITH TIME ZONE DEFAULT CURRENT_TIMESTAMP,
                resolved_at TIMESTAMP WITH TIME ZONE,
                resolution TEXT,
                metadata JSONB
            )";
         "CREATE INDEX idx_query_performance_hash ON query_performance(query_hash)";
         "CREATE INDEX idx_query_performance_context ON query_performance(context_id)";
         "CREATE INDEX idx_query_performance_time ON query_performance(execution_time)";
         "CREATE INDEX idx_query_optimizations_hash ON query_optimizations(query_hash)";
         "CREATE INDEX idx_performance_alerts_threshold ON performance_alerts(threshold_id)";
         "CREATE INDEX idx_performance_alerts_level ON performance_alerts(alert_level)";
         "CREATE OR REPLACE FUNCTION track_query_performance(
                p_query_text TEXT,
                p_execution_time NUMERIC,
                p_rows_affected INTEGER,
                p_query_plan JSONB,
                p_context_id INTEGER DEFAULT NULL
            ) RETURNS void AS $$
            DECLARE
                v_query_hash TEXT;
            BEGIN
                -- Generate hash of the query text
                v_query_hash := encode(digest(p_query_text, 'sha256'), 'hex');
                
                -- Insert performance record
                INSERT INTO query_performance (
                    query_hash,
                    query_text,
                    execution_time,
                    rows_affected,
                    query_plan,
                    context_id
                ) VALUES (
                    v_query_hash,
                    p_query_text,
                    p_execution_time,
                    p_rows_affected,
                    p_query_plan,
                    p_context_id
                );

                -- Check thresholds and create alerts if needed
                INSERT INTO performance_alerts (
                    threshold_id,
                    alert_level,
                    metric_value,
                    context
                )
                SELECT 
                    pt.id,
                    CASE 
                        WHEN p_execution_time >= pt.critical_threshold THEN 'critical'
                        WHEN p_execution_time >= pt.warning_threshold THEN 'warning'
                    END,
                    p_execution_time,
                    jsonb_build_object(
                        'query_hash', v_query_hash,
                        'rows_affected', p_rows_affected
                    )
                FROM performance_thresholds pt
                WHERE pt.metric_name = 'query_execution_time'
                AND (p_execution_time >= pt.warning_threshold OR p_execution_time >= pt.critical_threshold);
            END;
            $$ LANGUAGE plpgsql;";
         "INSERT INTO performance_thresholds (
                metric_name,
                warning_threshold,
                critical_threshold,
                aggregation_period
            ) VALUES 
            ('query_execution_time', 1000, 5000, '1 hour'::interval),
            ('rows_processed', 10000, 50000, '1 hour'::interval),
            ('memory_usage', 1000000, 5000000, '1 hour'::interval)
            ON CONFLICT (metric_name) DO NOTHING" ];
     down_queries :=
       [ "DROP FUNCTION IF EXISTS track_query_performance(TEXT, NUMERIC, INTEGER, JSONB, INTEGER)";
         "DROP TABLE IF EXISTS performance_alerts";
         "DROP TABLE IF EXISTS performance_thresholds";
         "DROP TABLE IF EXISTS query_optimizations";
         "DROP TABLE IF EXISTS query_performance" ] |}.

(** A unit that carries the version of [StrategyManagementMigration]. *)
Definition SameVersionMigration : Migration :=
  {| meta :=
       {| meta_id := "003_same_version";
          meta_name := "Same Version";
          meta_description := "A second unit at version 1.0.0";
          meta_version := "1.0.0";
          meta_dependencies := None |};
     up_queries := ["CREATE TABLE same_version"];
     down_queries := ["DROP TABLE IF EXISTS same_version"] |}.

(** A unit at a later version. *)
Definition LaterMigration : Migration :=
  {| meta :=
       {| meta_id := "004_later";
          meta_name := "Later";
          meta_description := "A unit at version 1.1.0";
          meta_version := "1.1.0";
          meta_dependencies := Some ["002_query_optimization"] |};
     up_queries := ["CREATE TABLE later"];
     down_queries := ["DROP TABLE IF EXISTS later"] |}.

(** The unit [StrategyManagementMigration] with another description. *)
Definition described (description : string) : Migration :=
  {| meta :=
       {| meta_id := meta_id (meta StrategyManagementMigration);
          meta_name := meta_name (meta StrategyManagementMigration);
          meta_description := description;
          meta_version := meta_version (meta StrategyManagementMigration);
          meta_dependencies := meta_dependencies (meta StrategyManagementMigration) |};
     up_queries := up_queries StrategyManagementMigration;
     down_queries := down_queries StrategyManagementMigration |}.

Definition empty_database : database := {| schema := []; ledger := None |}.

(** A state with the given units loaded and the given database, no fault
    ahead and nothing observed yet. *)
Definition initial_state (ms : list Migration) (d : database) : state :=
  State ms d None [] [].

(** The ledger after both units of the repository have been applied. *)
Definition both_recorded : gmap string LedgerRow :=
  <[meta_id (meta StrategyManagementMigration) :=
      ledger_row StrategyManagementMigration "checksum-1"]>
  (<[meta_id (meta QueryOptimizationMigration) :=
      ledger_row QueryOptimizationMigration "checksum-2"]> ∅).

Definition applied_state : state :=
  initial_state [StrategyManagementMigration; QueryOptimizationMigration]
    {| schema := up_queries StrategyManagementMigration
                 ++ up_queries QueryOptimizationMigration;
       ledger := Some both_recorded |}.

(** Two units at version 1.0.0 loaded, both recorded. *)
Definition same_version_state : state :=
  initial_state [StrategyManagementMigration; SameVersionMigration]
    {| schema := [];
       ledger := Some (<[meta_id (meta StrategyManagementMigration) :=
                           ledger_row StrategyManagementMigration "checksum-1"]>
                       (<[meta_id (meta SameVersionMigration) :=
                           ledger_row SameVersionMigration "checksum-3"]> ∅)) |}.

(** Three units loaded on an empty database; the database will raise an
    error at the 32nd request made of it, which is the fifth statement of
    the second unit's [up], the first that creates an index: 23 requests
    go to the first unit (3 of [validate], a client, [BEGIN], 16
    statements, [COMMIT], the [INSERT]), 2 to [validate] of the second, then
    a client, [BEGIN] and four statements. *)
Definition failing_state : state :=
  State [StrategyManagementMigration; QueryOptimizationMigration; LaterMigration]
        empty_database None (replicate 31 false ++ [true]) [].

(** A listing of the directory [versions], not in version order. *)
Definition versions_listing : list (string * option Migration) :=
  [ ("002_query_optimization.ts", Some QueryOptimizationMigration);
    ("README.md", None);
    ("001_strategy_management.ts", Some StrategyManagementMigration) ].

(** ** Reading the ledger ([getCurrentVersion], [getMigrationHistory])

    The column [applied_at] of a row is given by a function of the row's id.
    The text of the two statements is written on one line. *)

(** A row of the answer to the statement of [getMigrationHistory]. *)
Record HistoryRow : Type := {
  history_id : string;
  history_name : string;
  history_version : string;
  history_applied_at : Z;
  history_checksum : string
}.

(** [ORDER BY applied_at DESC], as a comparator on rows with their ids. *)
Definition latest_first (applied_at : string -> Z) (a b : string * LedgerRow) : Z :=
  applied_at (fst b) - applied_at (fst a).

(** The rows of the ledger in the order of [ORDER BY applied_at DESC]. Rows
    with the same [applied_at] come in an order the database chooses; the
    statements proved below hold for every such choice. *)
Definition select_latest_first (applied_at : string -> Z) (rows : gmap string LedgerRow)
  : list (string * LedgerRow) :=
  JS.sort (latest_first applied_at) (map_to_list rows).

Definition history_row (applied_at : string -> Z) (r : string * LedgerRow) : HistoryRow :=
  {| history_id := fst r;
     history_name := row_name (snd r);
     history_version := row_version (snd r);
     history_applied_at := applied_at (fst r);
     history_checksum := row_checksum (snd r) |}.

Definition current_version_statement : string :=
  "SELECT version FROM migrations ORDER BY applied_at DESC LIMIT 1".

Definition history_statement : string :=
  "SELECT id, name, version, applied_at, checksum FROM migrations ORDER BY applied_at DESC".

(** [SELECT version FROM migrations ORDER BY applied_at DESC LIMIT 1]; gives
    the [version] of each row of the answer. *)
Definition query_current_version (applied_at : string -> Z) : Async (list string) :=
  send (SqlText current_version_statement)
    (fun d => match ledger d with
              | Some rows =>
                  Some (map (fun r => row_version (snd r))
                            (take 1 (select_latest_first applied_at rows)), d)
              | None => None
              end).

(** [SELECT id, name, version, applied_at, checksum FROM migrations
    ORDER BY applied_at DESC] *)
Definition query_history (applied_at : string -> Z) : Async (list HistoryRow) :=
  send (SqlText history_statement)
    (fun d => match ledger d with
              | Some rows =>
                  Some (map (history_row applied_at)
                            (select_latest_first applied_at rows), d)
              | None => None
              end).

(** [result.rows[0]?.version || null]: no row, or an empty version, gives
    [null]. *)
Definition getCurrentVersion (applied_at : string -> Z) : Async (option string) :=
  try_catch
    (let* rows := query_current_version applied_at in
     ret (match rows with
          | version :: _ => if String.eqb version EmptyString then None else Some version
          | [] => None
          end))
    (fun error =>
       console_error "Failed to get current version:" error >>
       ret None).

Definition getMigrationHistory (applied_at : string -> Z) : Async (list HistoryRow) :=
  try_catch
    (let* rows := query_history applied_at in
     ret rows)
    (fun error =>
       console_error "Failed to get migration history:" error >>
       ret []).

(** The database raises an error at the next statement that reads the
    ledger: a fault is due, or the table is missing. *)
Definition read_fails (s : state) : bool :=
  match faults s, ledger (db s) with
  | true :: _, _ => true
  | _, None => true
  | _, Some _ => false
  end.

(** ** The script [scripts/migrate-database.ts]

    A run of the script resolves with the code it handed to [process.exit],
    or with nothing when it ran to its end. Closing the pool is left out. *)

(** [s.startsWith(prefix)] *)
Fixpoint startsWith (s prefix : string) {struct prefix} : bool :=
  match prefix with
  | EmptyString => true
  | String c prefix' =>
      match s with
      | String c' s' => Ascii.eqb c' c && startsWith s' prefix'
      | EmptyString => false
      end
  end.

(** [args.find(arg => arg.startsWith('--rollback='))?.split('=')[1]] *)
Definition rollbackVersion (args : list string) : option string :=
  match JS.find (fun arg => startsWith arg "--rollback=") args with
  | Some arg => JS.split "=" arg !! 1%nat
  | None => None
  end.

(** [new MigrationManager(pool)]: the array of units starts empty. *)
Definition new_MigrationManager : Async unit :=
  fun s => (Resolved tt, set_migrations [] s).

Definition process_exit (code : Z) : Async (option Z) := ret (Some code).

(** [x || fallback] for a string or [null]. *)
Definition or_else (x : option string) (fallback : string) : string :=
  match x with
  | Some v => if String.eqb v EmptyString then fallback else v
  | None => fallback
  end.

(** A string or [null] as [console.log] prints it after a first argument. *)
Definition printed (x : option string) : string :=
  match x with
  | Some v => v
  | None => "null"
  end.

Definition newline : string := String (ascii_of_nat 10) EmptyString.

Definition history_line (date_string : Z -> string) (migration : HistoryRow) : string :=
  "- " +:+ history_name migration +:+ " (" +:+ history_version migration
  +:+ ") applied at " +:+ date_string (history_applied_at migration).

(** [runMigrations()]; [date_string] is how a [Date] prints in a template. *)
Definition runMigrations (applied_at : string -> Z) (date_string : Z -> string)
    (dir : directory) : Async (option Z) :=
  console_log "Starting database migrations..." >>
  new_MigrationManager >>
  try_catch
    (loadMigrations dir >>
     let* currentVersion := getCurrentVersion applied_at in
     console_log ("Current database version: "
                  +:+ or_else currentVersion "No migrations applied") >>
     console_log "Applying pending migrations..." >>
     applyMigrations >>
     let* newVersion := getCurrentVersion applied_at in
     console_log ("New database version: " +:+ printed newVersion) >>
     console_log (newline +:+ "Migration History:") >>
     let* history := getMigrationHistory applied_at in
     for_each (fun migration => console_log (history_line date_string migration)) history >>
     console_log (newline +:+ "Migrations completed successfully!") >>
     ret None)
    (fun error =>
       console_error "Migration failed:" error >>
       process_exit 1).

(** The body of the script. *)
Definition main (applied_at : string -> Z) (date_string : Z -> string)
    (dir : directory) (args : list string) : Async (option Z) :=
  let forward :=
    try_catch (runMigrations applied_at date_string dir)
              (fun error => console_error EmptyString error >> ret None) in
  match rollbackVersion args with
  | Some version =>
      if negb (String.eqb version EmptyString) then
        console_log ("Rolling back to version " +:+ version +:+ "...") >>
        new_MigrationManager >>
        try_catch
          (rollbackMigration version >>
           console_log "Rollback completed successfully!" >>
           process_exit 0)
          (fun error =>
             console_error "Rollback failed:" error >>
             process_exit 1)
      else forward
  | None => forward
  end.

(** ** Further notions used in the statements *)

(** The units of [ms] that a run of [applyMigrations] finds without a row in
    the ledger [rows], each one counted as recorded for the units after it. *)
Fixpoint pending (rows : gmap string LedgerRow) (ms : list Migration) : list Migration :=
  match ms with
  | [] => []
  | m :: rest =>
      match rows !! meta_id (meta m) with
      | Some _ => pending rows rest
      | None =>
          m :: pending (<[meta_id (meta m) := ledger_row m (generateChecksum m)]> rows) rest
      end
  end.

(** The ledger after the rows of the units [ms] have been inserted in order. *)
Definition record_all (rows : gmap string LedgerRow) (ms : list Migration)
  : gmap string LedgerRow :=
  fold_left (fun rows m => <[meta_id (meta m) := ledger_row m (generateChecksum m)]> rows)
            ms rows.

(** A lower-case hexadecimal digit. *)
Definition is_hex_digit (c : ascii) : bool :=
  let n := nat_of_ascii c in
  (((48 <=? n) && (n <=? 57)) || ((97 <=? n) && (n <=? 102)))%nat.

(** * Properties *)

(** ** The version comparator *)

Lemma digits_value_fold (s : string) (acc z : Z) :
  JS.digits_value acc s = Some z ->
  fold_left (fun a c => 10 * a + JS.digit_value c) (list_ascii_of_string s) acc = z.
Proof.
  revert acc. induction s as [|c s IH]; intros acc H; simpl in *.
  - congruence.
  - destruct (JS.is_digit c); [|discriminate]. now apply IH.
Qed.

Lemma numeric_segment_value (s : string) :
  numeric_segment s = true ->
  JS.or_zero (Some (JS.Number s)) = spec_parse_int s.
Proof.
  unfold numeric_segment, JS.Number, spec_parse_int. intros H.
  destruct s as [|c s]; [discriminate|].
  destruct (JS.digits_value 0 (String c s)) as [z|] eqn:E; [|discriminate].
  unfold JS.or_zero. symmetry. now apply digits_value_fold.
Qed.

Lemma lookup_map {A B : Type} (f : A -> B) (l : list A) (i : nat) :
  map f l !! i = option_map f (l !! i).
Proof.
  revert i. induction l as [|x l IH]; intros [|i]; simpl; auto.
Qed.

Lemma code_segment_numeric (v : string) (i : nat) :
  numeric_version v = true -> code_segment v i = spec_segment v i.
Proof.
  unfold numeric_version, code_segment, spec_segment. intros H.
  rewrite lookup_map.
  destruct (JS.split "." v !! i) as [seg|] eqn:E; simpl; [|reflexivity].
  apply numeric_segment_value.
  rewrite forallb_forall in H. apply H.
  apply list_elem_of_In. eapply list_elem_of_lookup_2; eauto.
Qed.

Lemma code_segment_beyond (v : string) (i : nat) :
  (length (map JS.Number (JS.split "." v)) <= i)%nat -> code_segment v i = 0.
Proof.
  intros H. unfold code_segment. now rewrite lookup_ge_None_2.
Qed.

(** The loop returns 0 when all remaining segments agree, and the difference
    at the first index where they do not. *)
Lemma compareVersions_loop_spec (a b : string) (fuel i : nat) :
  let partsA := map JS.Number (JS.split "." a) in
  let partsB := map JS.Number (JS.split "." b) in
  (forall j, (i + fuel <= j)%nat -> code_segment a j = code_segment b j) ->
  (forall j, (j < i)%nat -> code_segment a j = code_segment b j) ->
  ((forall j, code_segment a j = code_segment b j) /\
   compareVersions_loop partsA partsB i fuel = 0)
  \/ exists k,
      (forall j, (j < k)%nat -> code_segment a j = code_segment b j) /\
      code_segment a k <> code_segment b k /\
      compareVersions_loop partsA partsB i fuel = code_segment a k - code_segment b k.
Proof.
  intros partsA partsB. revert i.
  induction fuel as [|fuel IH]; intros i Hhi Hlo.
  - left. split; [|reflexivity]. intros j.
    destruct (Nat.lt_ge_cases j i); [auto|apply Hhi; lia].
  - change (compareVersions_loop partsA partsB i (S fuel))
      with (if negb (code_segment a i =? code_segment b i)
            then code_segment a i - code_segment b i
            else compareVersions_loop partsA partsB (S i) fuel).
    destruct (Z.eqb_spec (code_segment a i) (code_segment b i)) as [E|E];
      cbn [negb].
    + apply IH.
      * intros j Hj. apply Hhi. lia.
      * intros j Hj. destruct (Nat.eq_dec j i) as [->|]; [exact E|apply Hlo; lia].
    + right. exists i. auto.
Qed.

Lemma compareVersions_cases (a b : string) :
  ((forall j, code_segment a j = code_segment b j) /\ compareVersions a b = 0)
  \/ exists k,
      (forall j, (j < k)%nat -> code_segment a j = code_segment b j) /\
      code_segment a k <> code_segment b k /\
      compareVersions a b = code_segment a k - code_segment b k.
Proof.
  unfold compareVersions. apply compareVersions_loop_spec.
  - intros j Hj. rewrite !code_segment_beyond; [reflexivity|lia|lia].
  - intros j Hj. lia.
Qed.

(** C2: on dot-separated numeric version strings the comparator agrees with
    the segment-wise comparison of the specification: with segments read as
    integers and absent segments as 0, it returns 0 when all segments agree
    and otherwise the difference of the segments at the first position where
    they differ; "1.0" equals "1.0.0", "2.0" is above "1.9.9", "0.9" is below
    "0.10". *)
Theorem compareVersions_spec (a b : string) :
  numeric_version a = true ->
  numeric_version b = true ->
  (((forall i, spec_segment a i = spec_segment b i) /\ compareVersions a b = 0)
   \/ exists k, first_difference a b k /\
                compareVersions a b = spec_segment a k - spec_segment b k)
  /\ compareVersions "1.0" "1.0.0" = 0
  /\ 0 < compareVersions "2.0" "1.9.9"
  /\ compareVersions "0.9" "0.10" < 0.
Proof.
  intros Ha Hb. split; [|repeat split; vm_compute; reflexivity].
  destruct (compareVersions_cases a b) as [[Heq H0]|(k & Hlt & Hne & Hk)].
  - left. split; [|exact H0].
    intros i. rewrite <- !code_segment_numeric by assumption. apply Heq.
  - right. exists k. unfold first_difference.
    rewrite <- !code_segment_numeric by assumption. repeat split; auto.
    intros j Hj. rewrite <- !code_segment_numeric by assumption. auto.
Qed.

Lemma compareVersions_spec_witness :
  (exists k, first_difference "1.2.3" "1.10" k /\
             compareVersions "1.2.3" "1.10" = spec_segment "1.2.3" k - spec_segment "1.10" k)
  /\ compareVersions "1.2.3" "1.10" = -8.
Proof.
  split; [|vm_compute; reflexivity].
  destruct (compareVersions_spec "1.2.3" "1.10") as [[[H _]|H] _].
  - vm_compute; reflexivity.
  - vm_compute; reflexivity.
  - specialize (H 1%nat). vm_compute in H. discriminate.
  - exact H.
Defined.

(** *** The comparator is a total preorder on versions *)

Lemma segments_le_trans (f g h : nat -> Z) :
  segments_le f g -> segments_le g h -> segments_le f h.
Proof.
  intros [E1|(k1 & P1 & L1)] [E2|(k2 & P2 & L2)].
  - left. intros j. now rewrite E1.
  - right. exists k2. split; [intros j Hj; rewrite E1; auto|rewrite E1; auto].
  - right. exists k1. split; [intros j Hj; rewrite <- E2; auto|rewrite <- E2; auto].
  - right. destruct (lt_eq_lt_dec k1 k2) as [[Hlt|Heq]|Hgt].
    + exists k1. split; [intros j Hj; rewrite P1, P2 by lia; reflexivity|].
      rewrite <- P2 by lia. exact L1.
    + subst k2. exists k1. split; [intros j Hj; rewrite P1, P2 by lia; reflexivity|lia].
    + exists k2. split; [intros j Hj; rewrite P1, P2 by lia; reflexivity|].
      rewrite P1 by lia. exact L2.
Qed.

Lemma compareVersions_le_iff (a b : string) :
  compareVersions a b <= 0 <-> segments_le (code_segment a) (code_segment b).
Proof.
  destruct (compareVersions_cases a b) as [[Heq H0]|(k & Hlt & Hne & Hk)].
  - split; [left; exact Heq|lia].
  - split.
    + intros H. right. exists k. split; [exact Hlt|lia].
    + intros [E|(k' & P & L)]; [now elim Hne|].
      destruct (lt_eq_lt_dec k k') as [[H|H]|H].
      * elim Hne. now apply P.
      * subst k'. lia.
      * specialize (Hlt k' H). lia.
Qed.

Lemma compareVersions_total (a b : string) :
  compareVersions a b <= 0 \/ compareVersions b a <= 0.
Proof.
  destruct (compareVersions_cases a b) as [[Heq H0]|(k & Hlt & Hne & Hk)].
  - left. lia.
  - destruct (Z_lt_le_dec (code_segment a k) (code_segment b k)) as [H|H].
    + left. lia.
    + right. apply compareVersions_le_iff. right. exists k.
      split; [intros j Hj; symmetry; auto|lia].
Qed.

Lemma compareVersions_trans (a b c : string) :
  compareVersions a b <= 0 -> compareVersions b c <= 0 -> compareVersions a c <= 0.
Proof.
  rewrite !compareVersions_le_iff. apply segments_le_trans.
Qed.

(** ** Sorting *)

Section SortCorrect.
Context {A : Type} (comparefn : A -> A -> Z).
Hypothesis comparefn_total : forall x y, comparefn x y <= 0 \/ comparefn y x <= 0.
Hypothesis comparefn_trans :
  forall x y z, comparefn x y <= 0 -> comparefn y z <= 0 -> comparefn x z <= 0.

Lemma insert_Permutation (x : A) (l : list A) :
  Permutation (JS.insert comparefn x l) (x :: l).
Proof.
  induction l as [|y l IH]; simpl; [reflexivity|].
  destruct (comparefn x y <=? 0); [reflexivity|].
  rewrite IH. apply perm_swap.
Qed.

Lemma sort_Permutation (l : list A) : Permutation (JS.sort comparefn l) l.
Proof.
  induction l as [|x l IH]; simpl; [reflexivity|].
  rewrite insert_Permutation. now constructor.
Qed.

Lemma insert_StronglySorted (x : A) (l : list A) :
  StronglySorted (no_later comparefn) l -> StronglySorted (no_later comparefn) (JS.insert comparefn x l).
Proof.
  induction 1 as [|y l Hs IH Hy]; simpl.
  - repeat constructor.
  - destruct (Z.leb_spec (comparefn x y) 0) as [Hxy|Hxy].
    + constructor; [now constructor|].
      constructor; [exact Hxy|].
      eapply Forall_impl; [exact Hy|]. intros z Hz.
      eapply comparefn_trans; eauto.
    + constructor; [exact IH|].
      assert (Hyx : no_later comparefn y x) by (destruct (comparefn_total x y); [lia|assumption]).
      eapply Permutation_Forall; [symmetry; apply insert_Permutation|].
      now constructor.
Qed.

Lemma sort_StronglySorted (l : list A) : StronglySorted (no_later comparefn) (JS.sort comparefn l).
Proof.
  induction l as [|x l IH]; simpl; [constructor|].
  now apply insert_StronglySorted.
Qed.
End SortCorrect.

Lemma sort_by_version_sorted (l : list Migration) :
  StronglySorted version_le (JS.sort by_version l).
Proof.
  change version_le with (no_later by_version). apply sort_StronglySorted.
  - intros x y. apply compareVersions_total.
  - intros x y z. apply compareVersions_trans.
Qed.

(** The example of the specification: versions discovered as 1.0.1, 1.0.0,
    2.0.0 are put in ascending order; versions that compare equal keep
    their order of discovery. *)
Example sort_versions :
  JS.sort compareVersions ["1.0.1"; "1.0.0"; "2.0.0"] = ["1.0.0"; "1.0.1"; "2.0.0"].
Proof. vm_compute. reflexivity. Qed.

Example sort_versions_stable :
  JS.sort compareVersions ["1.0.0"; "0.9"; "1.0"] = ["0.9"; "1.0.0"; "1.0"].
Proof. vm_compute. reflexivity. Qed.

(** ** Transactional batches ([Migration.executeBatch]) *)

Lemma first_fault_None_applied (fs : list bool) (queries : list string) :
  first_fault fs queries = None -> batch_applied fs queries = queries.
Proof.
  revert fs. induction queries as [|q rest IH]; intros fs H; [reflexivity|].
  destruct fs as [|[] fs]; cbn in *; try discriminate; f_equal; auto.
Qed.

Lemma first_fault_In (fs : list bool) (queries : list string) (q : string) :
  first_fault fs queries = Some q -> In q queries.
Proof.
  revert fs. induction queries as [|q' rest IH]; intros fs H; [discriminate|].
  destruct fs as [|[] fs]; cbn in *; [right| |right]; eauto. left. congruence.
Qed.

Lemma first_fault_nil (queries : list string) : first_fault [] queries = None.
Proof. induction queries as [|q qs IH]; [reflexivity|exact IH]. Qed.

Lemma run_queries_spec (queries : list string) (s : state) :
  run_queries queries s =
  (match first_fault (faults s) queries with
   | None => Resolved tt
   | Some q => Rejected (DatabaseError (SqlText q))
   end,
   State (migrations s)
         {| schema := schema (db s) ++ batch_applied (faults s) queries;
            ledger := ledger (db s) |}
         (snapshot s)
         (drop (length (batch_attempted (faults s) queries)) (faults s))
         (trace s ++ map (fun q => Query (SqlText q)) (batch_attempted (faults s) queries))).
Proof.
  revert s. induction queries as [|q rest IH]; intros [ms [sch led] snap fs tr].
  - cbn. now rewrite !app_nil_r.
  - destruct fs as [|[] fs].
    + cbn -[drop]. unfold bind, client_query, send; cbn -[drop].
      rewrite IH; cbn -[drop]. unfold batch_attempted; cbn -[drop].
      now rewrite !drop_nil, <- !app_assoc.
    + cbn. unfold bind, client_query, send; cbn.
      unfold batch_attempted; cbn. now rewrite app_nil_r.
    + cbn -[drop]. unfold bind, client_query, send; cbn -[drop].
      rewrite IH; cbn -[drop]. unfold batch_attempted; cbn -[drop].
      now rewrite <- !app_assoc.
Qed.

Lemma statements_of_texts (queries : list string) :
  statements_of (map SqlText queries) = queries.
Proof. induction queries as [|q qs IH]; cbn; congruence. Qed.

Lemma pool_connect_spec (s : state) :
  pool_connect s =
  if refuses (faults s)
  then (Rejected ConnectionError,
        State (migrations s) (db s) (snapshot s) (tl (faults s)) (trace s))
  else (Resolved tt,
        State (migrations s) (db s) None (tl (faults s)) (trace s ++ [Connect])).
Proof. destruct s as [ms d snap [|[] fs] tr]; reflexivity. Qed.

Lemma client_begin_spec (s : state) :
  client_begin s =
  if refuses (faults s)
  then (Rejected (DatabaseError SqlBegin),
        State (migrations s) (db s) (snapshot s) (tl (faults s))
              (trace s ++ [Query SqlBegin]))
  else (Resolved tt,
        State (migrations s) (db s) (Some (db s)) (tl (faults s))
              (trace s ++ [Query SqlBegin])).
Proof. destruct s as [ms d snap [|[] fs] tr]; reflexivity. Qed.

Lemma client_commit_spec (s : state) :
  client_commit s =
  if refuses (faults s)
  then (Rejected (DatabaseError SqlCommit),
        State (migrations s) (db s) (snapshot s) (tl (faults s))
              (trace s ++ [Query SqlCommit]))
  else (Resolved tt,
        State (migrations s) (db s) None (tl (faults s))
              (trace s ++ [Query SqlCommit])).
Proof. destruct s as [ms d snap [|[] fs] tr]; reflexivity. Qed.

Lemma client_rollback_spec (s : state) :
  client_rollback s =
  if refuses (faults s)
  then (Rejected (DatabaseError SqlRollback),
        State (migrations s) (db s) (snapshot s) (tl (faults s))
              (trace s ++ [Query SqlRollback]))
  else (Resolved tt,
        State (migrations s) (default (db s) (snapshot s)) None (tl (faults s))
              (trace s ++ [Query SqlRollback])).
Proof. destruct s as [ms d [d0|] [|[] fs] tr]; reflexivity. Qed.

Lemma tl_drop {A : Type} (n : nat) (l : list A) : tl (drop n l) = drop (S n) l.
Proof.
  revert l. induction n as [|n IH]; intros [|x l]; cbn; auto.
Qed.

Lemma executeBatch_spec (queries : list string) (s : state) :
  executeBatch queries s =
  let e := batch_end_of (faults s) queries in
  (batch_outcome e,
   State (migrations s)
         (batch_database queries e (db s))
         (batch_snapshot e (db s) (snapshot s))
         (drop (batch_faults_used queries e) (faults s))
         (trace s ++ batch_trace queries e)).
Proof.
  destruct s as [ms [sch led] snap fs tr].
  unfold executeBatch, finally, try_catch, client_release, emit, throw, bind.
  rewrite pool_connect_spec. unfold batch_end_of. cbn [faults migrations db snapshot trace].
  destruct (refuses fs) eqn:E0.
  { cbn. rewrite app_nil_r. destruct fs; reflexivity. }
  rewrite client_begin_spec. cbn [faults migrations db snapshot trace].
  change (tl fs) with (drop 1 fs).
  destruct (refuses (drop 1 fs)) eqn:E1.
  { rewrite client_rollback_spec. cbn [faults migrations db snapshot trace].
    rewrite tl_drop.
    unfold after_refusal. destruct (refuses (drop 2 fs)) eqn:E2.
    all: unfold record_event; cbn -[drop]; rewrite ?tl_drop, ?app_nil_r, <- ?app_assoc.
    all: reflexivity. }
  rewrite run_queries_spec. cbn [faults migrations db snapshot trace schema ledger].
  rewrite tl_drop. cbv zeta.
  set (fs2 := drop 2 fs).
  destruct (first_fault fs2 queries) as [q|] eqn:Eq.
  { unfold after_refusal.
    set (fsr := drop (length (batch_attempted fs2 queries)) fs2).
    rewrite client_rollback_spec. cbn [faults migrations db snapshot trace default].
    fold fsr. destruct (refuses fsr) eqn:E2.
    all: unfold record_event; cbn -[drop batch_applied batch_attempted fsr].
    all: subst fsr fs2; unfold batch_attempted; rewrite Eq; cbn [option_list].
    all: rewrite ?tl_drop, ?drop_drop, ?statements_of_texts.
    all: rewrite ?map_app, ?map_map, ?length_app, ?length_map, <- ?app_assoc.
    all: cbn -[drop batch_applied]; repeat f_equal; lia. }
  rewrite (first_fault_None_applied _ _ Eq).
  unfold batch_attempted. rewrite Eq, (first_fault_None_applied _ _ Eq), app_nil_r.
  rewrite client_commit_spec. cbn [faults migrations db snapshot trace].
  destruct (refuses (drop (length queries) fs2)) eqn:E3.
  { unfold after_refusal. rewrite tl_drop.
    set (fsr := drop (S (length queries)) fs2).
    rewrite client_rollback_spec. cbn [faults migrations db snapshot trace default].
    fold fsr. destruct (refuses fsr) eqn:E4.
    all: unfold record_event; cbn -[drop fsr].
    all: subst fsr fs2; rewrite ?tl_drop, ?drop_drop, ?statements_of_texts.
    all: rewrite ?map_app, ?map_map, ?length_app, ?length_map, <- ?app_assoc.
    all: cbn -[drop]; repeat f_equal; lia. }
  unfold record_event; cbn -[drop].
  subst fs2; rewrite ?tl_drop, ?drop_drop.
  rewrite ?map_app, ?map_map, ?length_app, ?length_map, <- ?app_assoc.
  cbn -[drop]; repeat f_equal; lia.
Qed.

Lemma calls_app (f : method) (t1 t2 : list event) :
  calls f (t1 ++ t2) = calls f t1 ++ calls f t2.
Proof.
  induction t1 as [|e t1 IH]; simpl; [reflexivity|].
  destruct e; auto. destruct (method_eqb f f0); simpl; now rewrite IH.
Qed.

Lemma queries_sent_app (t1 t2 : list event) :
  queries_sent (t1 ++ t2) = queries_sent t1 ++ queries_sent t2.
Proof.
  induction t1 as [|e t1 IH]; simpl; [reflexivity|].
  destruct e; simpl; now rewrite ?IH.
Qed.

Lemma error_count_app (t1 t2 : list event) :
  error_count (t1 ++ t2) = (error_count t1 + error_count t2)%nat.
Proof.
  induction t1 as [|e t1 IH]; simpl; [reflexivity|].
  destruct e; simpl; now rewrite ?IH.
Qed.

Lemma invocations_app (t1 t2 : list event) :
  invocations (t1 ++ t2) = invocations t1 ++ invocations t2.
Proof.
  induction t1 as [|e t1 IH]; simpl; [reflexivity|].
  destruct e; simpl; now rewrite ?IH.
Qed.

Lemma calls_invocations (f : method) (t : list event) :
  calls f t =
  map snd (List.filter (fun p => method_eqb f (fst p)) (invocations t)).
Proof.
  induction t as [|e t IH]; simpl; [reflexivity|].
  destruct e; simpl; auto. destruct (method_eqb f f0); simpl; now rewrite IH.
Qed.

(** What a list of statements leaves in the trace. *)
Lemma queries_only (l : list sql) :
  queries_sent (map Query l) = l /\
  invocations (map Query l) = [] /\
  error_count (map Query l) = 0%nat.
Proof.
  induction l as [|q l (IH1 & IH2 & IH3)]; cbn; [auto|].
  rewrite IH1, IH2, IH3. auto.
Qed.

Lemma batch_trace_events (queries : list string) (e : batch_end) :
  queries_sent (batch_trace queries e) = batch_sent queries e /\
  invocations (batch_trace queries e) = [] /\
  error_count (batch_trace queries e) = 0%nat.
Proof.
  destruct (queries_only (batch_sent queries e)) as (H1 & H2 & H3).
  destruct e; cbn -[batch_sent]; [auto|..].
  all: rewrite queries_sent_app, invocations_app, error_count_app, H1, H2, H3.
  all: cbn -[batch_sent]; rewrite app_nil_r; auto.
Qed.

Lemma invocations_batch_trace (queries : list string) (e : batch_end) :
  invocations (batch_trace queries e) = [].
Proof. apply batch_trace_events. Qed.

Lemma error_count_batch_trace (queries : list string) (e : batch_end) :
  error_count (batch_trace queries e) = 0%nat.
Proof. apply batch_trace_events. Qed.

Lemma calls_batch_trace (f : method) (queries : list string) (e : batch_end) :
  calls f (batch_trace queries e) = [].
Proof. now rewrite calls_invocations, invocations_batch_trace. Qed.

Lemma ledger_batch_database (queries : list string) (e : batch_end) (d : database) :
  ledger (batch_database queries e d) = ledger d.
Proof. destruct e; reflexivity. Qed.

Lemma batch_applied_statements (fs : list bool) (queries : list string) :
  Forall (fun q => reads_ledger q = false) (map SqlText (batch_applied fs queries)).
Proof.
  revert fs. induction queries as [|q qs IH]; intros fs; cbn; [constructor|].
  destruct fs as [|[] fs]; constructor; auto.
Qed.

Lemma batch_end_of_refused (fs : list bool) (queries : list string) :
  match batch_end_of fs queries with
  | RolledBack accepted q | LeftOpen accepted q =>
      batch_request queries q /\
      reads_ledger q = false /\
      Forall (fun q => reads_ledger q = false) accepted
  | _ => True
  end.
Proof.
  unfold batch_end_of, after_refusal, batch_request.
  destruct (refuses fs); [exact I|].
  destruct (refuses (drop 1 fs)).
  { destruct (refuses (drop 2 fs)); repeat split; auto. }
  assert (Hall : forall l, Forall (fun q => reads_ledger q = false) (map SqlText l)).
  { intros l. induction l; constructor; auto. }
  destruct (first_fault (drop 2 fs) queries) as [q|] eqn:E.
  { apply first_fault_In in E.
    destruct (refuses _); repeat split; eauto 6; constructor; auto. }
  destruct (refuses (drop (length queries) (drop 2 fs))); [|exact I].
  destruct (refuses _); repeat split; auto; constructor; auto.
Qed.

Lemma queries_sent_batch_trace (fs : list bool) (queries : list string) :
  Forall (fun q => reads_ledger q = false)
         (queries_sent (batch_trace queries (batch_end_of fs queries))).
Proof.
  destruct (batch_trace_events queries (batch_end_of fs queries)) as (-> & _).
  pose proof (batch_end_of_refused fs queries) as H.
  assert (Hall : forall l, Forall (fun q => reads_ledger q = false) (map SqlText l)).
  { intros l. induction l; constructor; auto. }
  destruct (batch_end_of fs queries) as [| |a q|a q]; cbn.
  - constructor.
  - constructor; [reflexivity|]. apply Forall_app_2; [apply Hall|repeat constructor].
  - destruct H as (_ & Hq & Ha). apply Forall_app_2; [exact Ha|repeat constructor; auto].
  - destruct H as (_ & Hq & Ha). apply Forall_app_2; [exact Ha|repeat constructor; auto].
Qed.

Lemma last_batch_sent (queries : list string) (e : batch_end) :
  last (batch_sent queries e) =
  match e with
  | NoClient => None
  | Committed => Some SqlCommit
  | RolledBack _ _ | LeftOpen _ _ => Some SqlRollback
  end.
Proof.
  destruct e as [| |a q|a q]; cbn.
  - reflexivity.
  - rewrite last_cons, last_snoc. reflexivity.
  - change (a ++ [q; SqlRollback]) with (a ++ [q] ++ [SqlRollback]).
    rewrite app_assoc. apply last_snoc.
  - change (a ++ [q; SqlRollback]) with (a ++ [q] ++ [SqlRollback]).
    rewrite app_assoc. apply last_snoc.
Qed.

Lemma batch_end_of_nil (queries : list string) : batch_end_of [] queries = Committed.
Proof.
  unfold batch_end_of. cbn. now rewrite first_fault_nil, drop_nil.
Qed.

Lemma no_fault_S (n : nat) (fs : list bool) :
  no_fault (S n) fs = negb (refuses fs) && no_fault n (tl fs).
Proof.
  unfold no_fault. destruct fs as [|[] fs]; cbn; auto. now rewrite take_nil.
Qed.

Lemma no_fault_add (a b : nat) (fs : list bool) :
  no_fault (a + b) fs = no_fault a fs && no_fault b (drop a fs).
Proof.
  revert fs. induction a as [|a IH]; intros fs; [reflexivity|].
  cbn [Nat.add]. rewrite !no_fault_S, IH. change (tl fs) with (drop 1 fs).
  rewrite drop_drop. cbn [Nat.add]. now rewrite andb_assoc.
Qed.

Lemma first_fault_no_fault (fs : list bool) (queries : list string) :
  first_fault fs queries = None <-> no_fault (length queries) fs = true.
Proof.
  revert fs. induction queries as [|q qs IH]; intros fs; [now split|].
  cbn [length]. rewrite no_fault_S. destruct fs as [|[] fs]; cbn -[no_fault].
  - apply IH.
  - split; discriminate.
  - apply IH.
Qed.

Lemma batch_end_of_Committed (fs : list bool) (queries : list string) :
  no_fault (length queries + 3) fs = true <-> batch_end_of fs queries = Committed.
Proof.
  replace (length queries + 3)%nat with (2 + (length queries + 1))%nat by lia.
  rewrite (no_fault_add 2), (no_fault_add (length queries)), !no_fault_S.
  change (tl fs) with (drop 1 fs). change (no_fault 0 _) with true.
  rewrite !andb_true_r, !andb_true_iff, !negb_true_iff, <- first_fault_no_fault.
  unfold batch_end_of, after_refusal.
  destruct (refuses fs); [split; [intros [[[=] _] _]|discriminate]|].
  destruct (refuses (drop 1 fs)).
  { split; [intros [[_ [=]] _]|destruct (refuses _); discriminate]. }
  destruct (first_fault (drop 2 fs) queries).
  { split; [intros [_ [[=] _]]|destruct (refuses _); discriminate]. }
  destruct (refuses (drop (length queries) (drop 2 fs))).
  { split; [intros [_ [_ [=]]]|destruct (refuses _); discriminate]. }
  split; auto.
Qed.

Lemma batch_outcome_Resolved (e : batch_end) :
  batch_outcome e = Resolved tt -> e = Committed.
Proof. destruct e; [discriminate|reflexivity|discriminate..]. Qed.

Lemma batch_outcome_Rejected (fs : list bool) (queries : list string) (e : error)
    (d : database) :
  batch_outcome (batch_end_of fs queries) = Rejected e ->
  batch_error queries e /\
  (e <> DatabaseError SqlRollback ->
   batch_database queries (batch_end_of fs queries) d = d).
Proof.
  pose proof (batch_end_of_refused fs queries) as H. unfold batch_error.
  destruct (batch_end_of fs queries) as [| |a q|a q]; cbn; intros [= <-].
  - split; auto.
  - destruct H as (H & _). split; eauto.
  - split; [auto|]. intros Hne. now elim Hne.
Qed.

Lemma batch_database_Rejected (fs : list bool) (queries : list string) (e : error)
    (d : database) :
  batch_outcome (batch_end_of fs queries) = Rejected e ->
  exists rest,
    schema (batch_database queries (batch_end_of fs queries) d) = schema d ++ rest /\
    (e <> DatabaseError SqlRollback -> rest = []).
Proof.
  destruct (batch_end_of fs queries) as [| |a q|a q]; cbn; intros [= <-].
  - exists []. now rewrite app_nil_r.
  - exists []. now rewrite app_nil_r.
  - exists (statements_of a). split; [reflexivity|]. intros Hne. now elim Hne.
Qed.

Lemma executeBatch_all_or_nothing
    (f : method) (this : Migration) (queries : list string) (s : state) :
  all_or_nothing queries (emit (Invoked f this) >> executeBatch queries) s.
Proof.
  unfold all_or_nothing, bind, emit. cbn -[executeBatch no_fault]. rewrite executeBatch_spec.
  cbv zeta. cbn [faults record_event db trace snapshot migrations].
  do 2 eexists. split; [reflexivity|]. cbn [db snapshot trace].
  split; [apply ledger_batch_database|]. split; [apply batch_end_of_Committed|].
  pose proof (batch_end_of_refused (faults s) queries) as Hq.
  pose proof (batch_trace_events queries (batch_end_of (faults s) queries)) as (Hsent & _).
  pose proof (last_batch_sent queries (batch_end_of (faults s) queries)) as Hlast.
  rewrite !queries_sent_app, Hsent.
  destruct (batch_end_of (faults s) queries) as [| |a q|a q]; cbn -[batch_sent].
  - cbn. rewrite !app_nil_r. auto.
  - rewrite last_app, Hlast. auto.
  - rewrite last_app, Hlast. destruct Hq as (Hq & _). auto.
  - rewrite last_app, Hlast. destruct Hq as (Hq & _). auto.
Qed.

(** C3, as amended: [up()] and [down()] each run their statements as one
    transaction on one client. When the client is taken and [BEGIN], every
    statement and [COMMIT] are accepted, all statements have taken effect,
    in order, and are committed together. When the database raises an error
    at [BEGIN], at a statement or at [COMMIT], [ROLLBACK] is sent last: if
    it is accepted, the database is left as it was and the error of the
    request that failed is raised again; if it is refused, the error of
    [ROLLBACK] is raised instead. When no client can be taken the call
    rejects and nothing is sent. *)
Theorem up_down_all_or_nothing (this : Migration) (s : state) :
  all_or_nothing (up_queries this) (up this) s /\
  all_or_nothing (down_queries this) (down this) s.
Proof.
  split; apply executeBatch_all_or_nothing.
Qed.

(** C3 as stated fails when [ROLLBACK] fails too: [down()] of the second
    unit of the repository, on a database that raises an error at the
    first statement and again at [ROLLBACK], rejects with the error of
    [ROLLBACK], not with that of the statement, and the transaction is not
    rolled back. *)
Lemma up_down_all_or_nothing_counterexample :
  let this := QueryOptimizationMigration in
  let s := State [this] empty_database None [false; false; true; true] [] in
  let q := "DROP FUNCTION IF EXISTS track_query_performance(TEXT, NUMERIC, INTEGER, JSONB, INTEGER)" in
  exists s',
    down this s = (Rejected (DatabaseError SqlRollback), s') /\
    queries_sent (trace s') = [SqlBegin; SqlText q; SqlRollback] /\
    first_fault (drop 2 (faults s)) (down_queries this) = Some q /\
    DatabaseError SqlRollback <> DatabaseError (SqlText q) /\
    snapshot s' = Some (db s).
Proof.
  cbv zeta. eexists. split; [vm_compute; reflexivity|].
  cbn. repeat split. discriminate.
Qed.

(** ** Validation ([Migration.validate]) *)

Ltac run_async :=
  unfold validate, recordMigration, removeMigrationRecord, console_error, console_log,
    query_table_exists, query_create_ledger, query_select_id, query_insert,
    query_delete, bind, try_catch, ret, throw, emit, send, record_event, set_faults,
    set_db;
  cbn -[lookup insert delete empty].

Ltac no_such_event :=
  let H := fresh in
  intros H; repeat (destruct H as [H|H]; [try discriminate|]);
  try contradiction; try discriminate.

Lemma validate_spec (this : Migration) (s : state) :
  exists b d' fs' delta,
    validate this s =
      (Resolved b,
       State (migrations s) d' (snapshot s) fs'
             (trace s ++ Invoked Validate this :: delta)) /\
    invocations delta = [] /\
    schema d' = schema (db s) /\
    (ledger d' = ledger (db s) \/ (ledger (db s) = None /\ ledger d' = Some ∅)) /\
    (In (Query SqlCreateLedger) delta -> ledger (db s) = None) /\
    (error_count delta = 0%nat ->
       ledger d' = Some (default ∅ (ledger (db s))) /\
       (ledger (db s) = None -> In (Query SqlCreateLedger) delta) /\
       (b = true <-> default ∅ (ledger (db s)) !! meta_id (meta this) = None)) /\
    (error_count delta <> 0%nat -> b = false) /\
    (error_count delta = 0%nat <->
     no_fault (validate_statements (db s)) (faults s) = true) /\
    (ledger (db s) = None -> no_fault 1 (faults s) = true ->
     In (Query SqlCreateLedger) delta).
Proof.
  destruct s as [ms [sch [rows|]] snap fs tr].
  - destruct fs as [|[] fs]; [| |destruct fs as [|[] fs]]; run_async.
    all: try destruct (rows !! meta_id (meta this)) as [r|] eqn:E; cbn -[lookup].
    all: do 4 eexists; (split; [rewrite <- ?app_assoc; reflexivity|]).
    all: cbn -[lookup]; repeat split; auto; try congruence; try lia.
    all: try no_such_event.
  - destruct fs as [|[] fs]; [| |destruct fs as [|[] fs]; [| |destruct fs as [|[] fs]]];
      run_async.
    all: rewrite ?lookup_empty; cbn -[lookup].
    all: do 4 eexists; (split; [rewrite <- ?app_assoc; reflexivity|]).
    all: cbn -[lookup]; repeat split; auto; try congruence; try lia.
    all: try no_such_event.
Qed.

(** C5: [validate()] never throws, whatever the unit and the state. It logs
    an error exactly when the database raises one at a statement it sends
    (two statements when the ledger table exists, three when it is
    missing), and then it returns false. It never touches the schema; it
    sends the statement creating the ledger table only when the table is
    missing, and then always, unless the check for the table raised an
    error; when no error occurs a missing table has been created, empty;
    and when no error occurs it returns true exactly when the ledger
    holds no row under the unit's id. *)
Theorem validate_never_throws (this : Migration) (s : state) :
  exists b s' delta,
    validate this s = (Resolved b, s') /\
    trace s' = trace s ++ delta /\
    schema (db s') = schema (db s) /\
    (In (Query SqlCreateLedger) delta -> ledger (db s) = None) /\
    (ledger (db s') = ledger (db s) \/
     (ledger (db s) = None /\ ledger (db s') = Some ∅)) /\
    (error_count delta <> 0%nat -> b = false) /\
    (error_count delta = 0%nat ->
       (ledger (db s) = None ->
          In (Query SqlCreateLedger) delta /\ ledger (db s') = Some ∅) /\
       exists rows,
         ledger (db s') = Some rows /\
         (b = true <-> rows !! meta_id (meta this) = None)) /\
    (error_count delta = 0%nat <->
     no_fault (validate_statements (db s)) (faults s) = true) /\
    (ledger (db s) = None -> no_fault 1 (faults s) = true ->
     In (Query SqlCreateLedger) delta).
Proof.
  destruct (validate_spec this s)
    as (b & d' & fs' & delta & Hrun & _ & Hsch & Hled & Hcreate & Hok & Herr & Hfault
        & Hsent).
  exists b. eexists. exists (Invoked Validate this :: delta).
  split; [exact Hrun|]. cbn -[lookup].
  repeat apply conj; auto.
  - intros [H|H]; [discriminate|auto].
  - intros H. destruct (Hok H) as (Hl & Hc & Hb). split.
    + intros E. split; [right; auto|]. rewrite Hl, E. reflexivity.
    + eexists. split; [exact Hl|exact Hb].
  - apply Hfault.
  - apply Hfault.
Qed.

(** ** Ledger writes ([recordMigration], [removeMigrationRecord]) *)

Lemma recordMigration_spec (this : Migration) (checksum : string) (s : state) :
  let id := meta_id (meta this) in
  let row := ledger_row this checksum in
  exists r d',
    recordMigration this checksum s =
      (r, State (migrations s) d' (snapshot s) (tl (faults s))
                (trace s ++ [Invoked RecordMigration this; Query (SqlInsert id row)])) /\
    ((r = Rejected (DatabaseError (SqlInsert id row)) /\ d' = db s)
     \/ (r = Resolved tt /\ schema d' = schema (db s) /\
         exists rows, ledger (db s) = Some rows /\ rows !! id = None /\
                      ledger d' = Some (<[id := row]> rows))).
Proof.
  destruct s as [ms [sch [rows|]] snap fs tr]; destruct fs as [|[] fs]; run_async.
  all: fold (ledger_row this checksum).
  all: try destruct (rows !! meta_id (meta this)) as [r|] eqn:E; cbn -[lookup insert].
  all: do 2 eexists; (split; [rewrite <- ?app_assoc; reflexivity|]); eauto 10.
Qed.

Lemma removeMigrationRecord_spec (this : Migration) (s : state) :
  let id := meta_id (meta this) in
  exists r d',
    removeMigrationRecord this s =
      (r, State (migrations s) d' (snapshot s) (tl (faults s))
                (trace s ++ [Invoked RemoveMigrationRecord this; Query (SqlDelete id)])) /\
    ((r = Rejected (DatabaseError (SqlDelete id)) /\ d' = db s)
     \/ (r = Resolved tt /\ schema d' = schema (db s) /\
         exists rows, ledger (db s) = Some rows /\ ledger d' = Some (delete id rows))).
Proof.
  destruct s as [ms [sch [rows|]] snap fs tr]; destruct fs as [|[] fs]; run_async.
  all: do 2 eexists; (split; [rewrite <- ?app_assoc; reflexivity|]); eauto 10.
Qed.

Lemma up_spec (this : Migration) (s : state) :
  up this s =
  let e := batch_end_of (faults s) (up_queries this) in
  (batch_outcome e,
   State (migrations s)
         (batch_database (up_queries this) e (db s))
         (batch_snapshot e (db s) (snapshot s))
         (drop (batch_faults_used (up_queries this) e) (faults s))
         (trace s ++ Invoked Up this :: batch_trace (up_queries this) e)).
Proof.
  destruct s as [ms d snap fs tr].
  unfold up, bind, emit. cbn -[executeBatch]. rewrite executeBatch_spec.
  cbn -[drop batch_trace batch_end_of]. now rewrite <- app_assoc.
Qed.

Lemma down_spec (this : Migration) (s : state) :
  down this s =
  let e := batch_end_of (faults s) (down_queries this) in
  (batch_outcome e,
   State (migrations s)
         (batch_database (down_queries this) e (db s))
         (batch_snapshot e (db s) (snapshot s))
         (drop (batch_faults_used (down_queries this) e) (faults s))
         (trace s ++ Invoked Down this :: batch_trace (down_queries this) e)).
Proof.
  destruct s as [ms d snap fs tr].
  unfold down, bind, emit. cbn -[executeBatch]. rewrite executeBatch_spec.
  cbn -[drop batch_trace batch_end_of]. now rewrite <- app_assoc.
Qed.

(** ** Rollback ([MigrationManager.rollbackMigration]) *)

Lemma find_None_iff {A : Type} (p : A -> bool) (l : list A) :
  JS.find p l = None <-> Forall (fun x => p x = false) l.
Proof.
  induction l as [|x l IH]; simpl.
  - split; [constructor|reflexivity].
  - destruct (p x) eqn:E.
    + split; [discriminate|]. intros H. inversion H; congruence.
    + rewrite IH. split; [now constructor|]. intros H. now inversion H.
Qed.

Lemma rollbackMigration_found (version : string) (s : state) (m : Migration) :
  JS.find (has_version version) (migrations s) = Some m ->
  rollbackMigration version s =
  let failed e s' :=
    (Rejected e,
     record_event
       (ConsoleError ("Failed to rollback migration " +:+ version +:+ ":") e) s') in
  match down m (record_event
                  (ConsoleLog ("Rolling back migration: " +:+ meta_name (meta m)
                               +:+ " (" +:+ version +:+ ")")) s) with
  | (Rejected e, s2) => failed e s2
  | (Resolved _, s2) =>
      match removeMigrationRecord m s2 with
      | (Rejected e, s3) => failed e s3
      | (Resolved _, s3) =>
          (Resolved tt,
           record_event
             (ConsoleLog ("Successfully rolled back migration: "
                          +:+ meta_name (meta m))) s3)
      end
  end.
Proof.
  intros H. unfold rollbackMigration, bind at 1, get_migrations.
  change (fun m0 : Migration => (meta_version (meta m0) =? version)%string)
    with (has_version version).
  rewrite H. unfold try_catch, bind, console_log, console_error, emit, throw.
  destruct (down m _) as [[[]|e] s2]; [|reflexivity].
  destruct (removeMigrationRecord m s2) as [[[]|e] s3]; reflexivity.
Qed.

(** C9: when no loaded unit carries the version asked for,
    [rollbackMigration] rejects at once with the error "Migration version
    ... not found", and the state is untouched: no statement is sent, the
    ledger and the schema are as they were, nothing is logged. *)
Theorem rollbackMigration_not_found (version : string) (s : state) :
  (forall m, In m (migrations s) -> meta_version (meta m) <> version) ->
  rollbackMigration version s =
  (Rejected (Error ("Migration version " +:+ version +:+ " not found")), s).
Proof.
  intros H. unfold rollbackMigration, bind, get_migrations.
  replace (JS.find _ (migrations s)) with (@None Migration); [reflexivity|].
  symmetry. apply find_None_iff. apply Forall_forall. intros m Hm.
  apply String.eqb_neq. apply H. now apply list_elem_of_In.
Qed.

Lemma rollbackMigration_not_found_witness :
  rollbackMigration "0"
    (initial_state [StrategyManagementMigration; QueryOptimizationMigration]
                   empty_database) =
  (Rejected (Error "Migration version 0 not found"),
   initial_state [StrategyManagementMigration; QueryOptimizationMigration]
                 empty_database).
Proof.
  apply (rollbackMigration_not_found "0").
  intros m [<-|[<-|[]]]; discriminate.
Defined.

(** A run of [rollbackMigration] on the unit [find] gives, by the outcome
    of [down()]. *)
Lemma rollbackMigration_run (version : string) (s : state) (m : Migration) :
  JS.find (has_version version) (migrations s) = Some m ->
  exists r s' delta,
    rollbackMigration version s = (r, s') /\
    trace s' = trace s ++ delta /\
    Forall (fun q => reads_ledger q = false) (queries_sent delta) /\
    match down m (record_event
                    (ConsoleLog ("Rolling back migration: " +:+ meta_name (meta m)
                                 +:+ " (" +:+ version +:+ ")")) s) with
    | (Resolved _, _) =>
        invocations delta = [(Down, m); (RemoveMigrationRecord, m)] /\
        ((exists e, r = Rejected e /\ ledger (db s') = ledger (db s)) \/
         (r = Resolved tt /\
          exists rows, ledger (db s) = Some rows /\
                       ledger (db s') = Some (delete (meta_id (meta m)) rows)))
    | (Rejected e, _) =>
        invocations delta = [(Down, m)] /\
        r = Rejected e /\ ledger (db s') = ledger (db s)
    end.
Proof.
  intros H. rewrite (rollbackMigration_found _ _ _ H). cbv zeta. rewrite down_spec.
  destruct s as [ms d snap fs tr].
  cbn -[drop batch_trace batch_end_of removeMigrationRecord]. cbv zeta.
  assert (Hq : Forall (fun q => reads_ledger q = false)
                 (queries_sent (batch_trace (down_queries m)
                                  (batch_end_of fs (down_queries m)))))
    by apply queries_sent_batch_trace.
  pose proof (invocations_batch_trace (down_queries m) (batch_end_of fs (down_queries m)))
    as Hi.
  pose proof (ledger_batch_database (down_queries m) (batch_end_of fs (down_queries m)) d)
    as Hl.
  destruct (batch_outcome (batch_end_of fs (down_queries m))) as [[]|e] eqn:E.
  - match goal with |- context [removeMigrationRecord m ?s2] =>
      destruct (removeMigrationRecord_spec m s2) as (r & d' & Hrm & Hcases) end.
    rewrite Hrm. cbn -[drop batch_trace batch_end_of] in *.
    destruct Hcases as [[-> ->]|(-> & Hsch & rows & Hrows & Hd')].
    + do 3 eexists. split; [reflexivity|]. cbn -[drop batch_trace batch_end_of].
      split; [rewrite <- !app_assoc; reflexivity|].
      split; cbn -[batch_trace batch_end_of].
      * rewrite !queries_sent_app. repeat apply Forall_app_2; auto.
        all: cbn; repeat constructor.
      * rewrite !invocations_app, Hi. cbn.
        split; [reflexivity|]. left. eauto.
    + do 3 eexists. split; [reflexivity|]. cbn -[drop batch_trace batch_end_of].
      split; [rewrite <- !app_assoc; reflexivity|].
      split; cbn -[batch_trace batch_end_of].
      * rewrite !queries_sent_app. repeat apply Forall_app_2; auto.
        all: cbn; repeat constructor.
      * rewrite !invocations_app, Hi. cbn.
        split; [reflexivity|]. right. rewrite Hl in Hrows. eauto.
  - do 3 eexists. split; [reflexivity|]. cbn -[drop batch_trace batch_end_of].
    split; [rewrite <- !app_assoc; reflexivity|].
    split; cbn -[batch_trace batch_end_of].
    + rewrite queries_sent_app. apply Forall_app_2; [exact Hq|constructor].
    + rewrite invocations_app, Hi. auto.
Qed.

(** C8, as amended: for the first loaded unit whose version equals the
    argument, a [rollbackMigration(version)] that resolves has deleted the
    ledger row held under that unit's id and left every other row as it
    was. *)
Theorem rollbackMigration_removes_row (version : string) (s s' : state) (m : Migration) :
  JS.find (has_version version) (migrations s) = Some m ->
  rollbackMigration version s = (Resolved tt, s') ->
  exists rows rows',
    ledger (db s) = Some rows /\
    ledger (db s') = Some rows' /\
    rows' !! meta_id (meta m) = None /\
    forall id, id <> meta_id (meta m) -> rows' !! id = rows !! id.
Proof.
  intros Hfind Hrun.
  destruct (rollbackMigration_run _ _ _ Hfind) as (r & s1 & delta & Hrun' & _ & _ & Hcases).
  rewrite Hrun in Hrun'. injection Hrun' as <- <-.
  destruct (down m _) as [[[]|e] s2].
  2:{ destruct Hcases as (_ & [=] & _). }
  - destruct Hcases as (_ & [(e & [=] & _)|(_ & rows & Hrows & Hrows')]).
    exists rows, (delete (meta_id (meta m)) rows).
    repeat split; auto.
    + apply lookup_delete_eq.
    + intros id Hid. now apply lookup_delete_ne.
Qed.

Lemma rollbackMigration_removes_row_witness :
  exists rows rows',
    ledger (db applied_state) = Some rows /\
    ledger (db (snd (rollbackMigration "1.0.1" applied_state))) = Some rows' /\
    rows' !! meta_id (meta QueryOptimizationMigration) = None /\
    forall id, id <> meta_id (meta QueryOptimizationMigration) -> rows' !! id = rows !! id.
Proof.
  apply (rollbackMigration_removes_row "1.0.1" applied_state).
  - reflexivity.
  - vm_compute. reflexivity.
Defined.

(** C8 as stated fails when two loaded units carry the same version: the
    second one matches the argument and has its ledger row, the rollback
    resolves, and that row is still there while the row of the first unit is
    gone. *)
Lemma rollbackMigration_removes_row_counterexample :
  In SameVersionMigration (migrations same_version_state) /\
  meta_version (meta SameVersionMigration) = "1.0.0" /\
  exists rows s' rows',
    ledger (db same_version_state) = Some rows /\
    is_Some (rows !! meta_id (meta SameVersionMigration)) /\
    rollbackMigration "1.0.0" same_version_state = (Resolved tt, s') /\
    ledger (db s') = Some rows' /\
    is_Some (rows' !! meta_id (meta SameVersionMigration)) /\
    rows' !! meta_id (meta StrategyManagementMigration)
      <> rows !! meta_id (meta StrategyManagementMigration).
Proof.
  split; [right; left; reflexivity|]. split; [reflexivity|].
  do 3 eexists. split; [reflexivity|]. split; [vm_compute; eauto|].
  split; [vm_compute; reflexivity|]. split; [reflexivity|].
  split; [vm_compute; eauto|]. vm_compute. discriminate.
Qed.

(** C10, as amended: [rollbackMigration] never reads the ledger. For the
    first loaded unit whose version equals the argument, whatever the
    ledger holds, [down()] is entered first and no statement sent during
    the call queries the ledger; when [down()] resolves,
    [removeMigrationRecord()] is entered next; and when [down()] rejects,
    [rollbackMigration] rejects with the same error,
    [removeMigrationRecord()] is not entered and the ledger is not
    touched. *)
Theorem rollbackMigration_ignores_ledger (version : string) (s : state) (m : Migration) :
  JS.find (has_version version) (migrations s) = Some m ->
  exists r s' delta,
    rollbackMigration version s = (r, s') /\
    trace s' = trace s ++ delta /\
    Forall (fun q => reads_ledger q = false) (queries_sent delta) /\
    match down m (record_event
                    (ConsoleLog ("Rolling back migration: " +:+ meta_name (meta m)
                                 +:+ " (" +:+ version +:+ ")")) s) with
    | (Resolved _, _) => invocations delta = [(Down, m); (RemoveMigrationRecord, m)]
    | (Rejected e, _) =>
        invocations delta = [(Down, m)] /\
        r = Rejected e /\
        ledger (db s') = ledger (db s)
    end.
Proof.
  intros Hfind.
  destruct (rollbackMigration_run _ _ _ Hfind) as (r & s' & delta & Hrun & Ht & Hq & Hcases).
  exists r, s', delta. repeat split; auto.
  destruct (down m _) as [[[]|e] s2]; tauto.
Qed.

Lemma rollbackMigration_ignores_ledger_witness :
  exists r s' delta,
    rollbackMigration "1.0.0"
      (initial_state [StrategyManagementMigration; QueryOptimizationMigration]
                     {| schema := []; ledger := Some ∅ |}) = (r, s') /\
    trace s' = delta /\
    Forall (fun q => reads_ledger q = false) (queries_sent delta) /\
    invocations delta = [(Down, StrategyManagementMigration);
                         (RemoveMigrationRecord, StrategyManagementMigration)].
Proof.
  apply (rollbackMigration_ignores_ledger "1.0.0"
           (initial_state [StrategyManagementMigration; QueryOptimizationMigration]
                          {| schema := []; ledger := Some ∅ |})
           StrategyManagementMigration).
  reflexivity.
Defined.

(** C10 as stated fails in two ways. With two loaded units at the same
    version, [down()] is entered on the first only. And when [down()]
    rejects, here because the database raises an error at its first
    statement, [removeMigrationRecord()] is not entered. *)
Lemma rollbackMigration_ignores_ledger_counterexample :
  (In SameVersionMigration (migrations same_version_state) /\
   meta_version (meta SameVersionMigration) = "1.0.0" /\
   invocations (trace (snd (rollbackMigration "1.0.0" same_version_state))) =
     [(Down, StrategyManagementMigration);
      (RemoveMigrationRecord, StrategyManagementMigration)])
  /\
  (let s := State [StrategyManagementMigration] empty_database None
                  [false; false; true] [] in
   let q := "DROP TRIGGER IF EXISTS strategy_version_activation ON strategy_versions" in
   hd_error (down_queries StrategyManagementMigration) = Some q /\
   fst (rollbackMigration "1.0.0" s) = Rejected (DatabaseError (SqlText q)) /\
   invocations (trace (snd (rollbackMigration "1.0.0" s))) =
     [(Down, StrategyManagementMigration)]).
Proof.
  split.
  - split; [right; left; reflexivity|]. split; reflexivity.
  - cbv zeta. split; [reflexivity|]. split; reflexivity.
Qed.

(** ** Applying ([MigrationManager.applyMigrations]) *)

Lemma apply_one_cases (m : Migration) (s : state) :
  apply_one m s =
  let failed e s' := (Rejected e, record_event (ConsoleError (apply_failed_message m) e) s') in
  match validate m s with
  | (Rejected e, s1) => failed e s1
  | (Resolved false, s1) => (Resolved tt, s1)
  | (Resolved true, s1) =>
      match up m (record_event (ConsoleLog (applying_message m)) s1) with
      | (Rejected e, s3) => failed e s3
      | (Resolved _, s3) =>
          match recordMigration m (generateChecksum m) s3 with
          | (Rejected e, s4) => failed e s4
          | (Resolved _, s4) =>
              (Resolved tt, record_event (ConsoleLog (applied_message m)) s4)
          end
      end
  end.
Proof.
  unfold apply_one, try_catch, bind at 1.
  destruct (validate m s) as [[[]|e] s1]; try reflexivity.
  unfold bind at 1, console_log at 1, emit at 1.
  fold (applying_message m).
  unfold bind at 1.
  destruct (up m _) as [[[]|e] s3]; try reflexivity.
  unfold bind at 1.
  destruct (recordMigration m _ s3) as [[[]|e] s4]; reflexivity.
Qed.

Lemma recordedb_true (id : string) (d : database) :
  recordedb id d = true -> recorded id d.
Proof.
  unfold recordedb, recorded. destruct (ledger d) as [rows|]; [|discriminate].
  destruct (rows !! id) eqn:E; [|discriminate]. eauto.
Qed.

Lemma recorded_insert (id id' : string) (row : LedgerRow) (d d' : database)
    (rows : gmap string LedgerRow) :
  recorded id d ->
  ledger d = Some rows ->
  ledger d' = Some (<[id' := row]> rows) ->
  recorded id d'.
Proof.
  intros (rows0 & Hl & Hrow) Hd Hd'. assert (rows0 = rows) as -> by congruence.
  exists (<[id' := row]> rows). split; [exact Hd'|].
  destruct (decide (id' = id)) as [->|Hne].
  - rewrite lookup_insert_eq. eauto.
  - now rewrite lookup_insert_ne.
Qed.

Lemma not_recorded_None (id : string) (d : database) (rows : gmap string LedgerRow) :
  ledger d = Some rows -> rows !! id = None -> ~ recorded id d.
Proof.
  intros Hl Hr (rows' & Hl' & [r Hr']). congruence.
Qed.

Ltac norm_invocations H :=
  repeat first [ rewrite invocations_app | rewrite invocations_batch_trace | rewrite H
               | progress cbn -[batch_trace batch_end_of drop lookup insert] ].

Ltac solve_last :=
  repeat first [ rewrite last_snoc | rewrite last_app | rewrite last_cons ];
  cbn; reflexivity.

Lemma apply_one_spec (m : Migration) (s : state) :
  let id := meta_id (meta m) in
  exists r s' delta,
    apply_one m s = (r, s') /\
    trace s' = trace s ++ delta /\
    migrations s' = migrations s /\
    (forall id', recorded id' (db s) -> recorded id' (db s')) /\
    ((r = Resolved tt /\
      invocations delta = [(Validate, m)] /\
      schema (db s') = schema (db s) /\
      (ledger (db s') = ledger (db s) \/
       (ledger (db s) = None /\ ledger (db s') = Some ∅)) /\
      (error_count delta = 0%nat -> recorded id (db s')))
     \/
     (r = Resolved tt /\
      invocations delta = [(Validate, m); (Up, m); (RecordMigration, m)] /\
      error_count delta = 0%nat /\
      schema (db s') = schema (db s) ++ up_queries m /\
      ~ recorded id (db s) /\
      ledger (db s') =
        Some (<[id := ledger_row m (generateChecksum m)]> (default ∅ (ledger (db s)))))
     \/
     (exists e,
        r = Rejected e /\
        batch_error (up_queries m) e /\
        invocations delta = [(Validate, m); (Up, m)] /\
        last delta = Some (ConsoleError (apply_failed_message m) e) /\
        (e <> DatabaseError SqlRollback -> schema (db s') = schema (db s)) /\
        ledger (db s') = Some (default ∅ (ledger (db s))) /\
        ~ recorded id (db s'))
     \/
     (exists e,
        r = Rejected e /\
        invocations delta = [(Validate, m); (Up, m); (RecordMigration, m)] /\
        last delta = Some (ConsoleError (apply_failed_message m) e) /\
        schema (db s') = schema (db s) ++ up_queries m /\
        ledger (db s') = Some (default ∅ (ledger (db s))) /\
        ~ recorded id (db s'))).
Proof.
  cbv zeta. rewrite apply_one_cases.
  destruct (validate_spec m s)
    as (b & d1 & fs1 & dv & Hv & Hinv & Hsch & Hled & _ & Hok & Herr & _).
  rewrite Hv. cbn zeta.
  assert (Hgrow : forall id', recorded id' (db s) -> recorded id' d1).
  { intros id' (rows & Hrows & Hrow). exists rows. split; [|exact Hrow].
    destruct Hled as [->|[E _]]; congruence. }
  destruct b.
  - (* the unit is pending *)
    destruct (Nat.eq_dec (error_count dv) 0%nat) as [Hz|Hnz];
      [|specialize (Herr Hnz); discriminate].
    destruct (Hok Hz) as (Hl1 & _ & Hb). assert (Hfree := proj1 Hb eq_refl). clear Hb.
    rewrite up_spec. cbv zeta. cbn -[drop batch_trace batch_end_of recordMigration].
    pose proof (ledger_batch_database (up_queries m) (batch_end_of fs1 (up_queries m)) d1)
      as Hlb.
    destruct (batch_outcome (batch_end_of fs1 (up_queries m))) as [[]|e] eqn:E.
    2:{ destruct (batch_outcome_Rejected _ _ _ d1 E) as [Herror Hback].
        do 3 eexists. split; [reflexivity|]. cbn -[drop batch_trace batch_end_of].
        split; [rewrite <- !app_assoc; reflexivity|]. split; [reflexivity|].
        split.
        { intros id' H. destruct (Hgrow id' H) as (rows' & ? & ?).
          exists rows'. split; [congruence|auto]. }
        right. right. left. exists e.
        split; [reflexivity|]. split; [exact Herror|].
        split; [norm_invocations Hinv; reflexivity|].
        split; [solve_last|].
        split; [intros Hne; now rewrite (Hback Hne)|].
        split; [congruence|].
        eapply not_recorded_None; [|exact Hfree]. congruence. }
    apply batch_outcome_Resolved in E. rewrite E in *.
    cbn -[drop batch_trace recordMigration] in *.
    + match goal with |- context [recordMigration m ?c ?s3] =>
        destruct (recordMigration_spec m c s3) as (r & d4 & Hrec & Hcases) end.
      cbn zeta in Hrec. rewrite Hrec. cbn -[drop batch_trace] in *.
      destruct Hcases as [[-> ->]|(-> & Hsch4 & rows & Hrows & Hfresh & Hl4)].
      * do 3 eexists. split; [reflexivity|]. cbn -[drop batch_trace].
        split; [rewrite <- !app_assoc; reflexivity|]. split; [reflexivity|].
        split.
        { intros id' H. destruct (Hgrow id' H) as (rows' & ? & ?).
          exists rows'. auto. }
        right. right. right. eexists. split; [reflexivity|].
        split; [norm_invocations Hinv; reflexivity|].
        split; [solve_last|].
        split; [now rewrite Hsch|]. split; [exact Hl1|].
        eapply not_recorded_None; eauto.
      * do 3 eexists. split; [reflexivity|]. cbn -[drop batch_trace].
        split; [rewrite <- !app_assoc; reflexivity|]. split; [reflexivity|].
        split.
        { intros id' H.
          eapply recorded_insert; [apply Hgrow, H|exact Hrows|exact Hl4]. }
        right. left. split; [reflexivity|].
        split; [norm_invocations Hinv; reflexivity|].
        split.
        { cbn -[batch_trace].
          rewrite !error_count_app. cbn -[batch_trace].
          rewrite !error_count_app, error_count_batch_trace, Hz. reflexivity. }
        split; [now rewrite Hsch4, Hsch|].
        split.
        { intros (rows0 & Hr0 & [x Hx]).
          rewrite Hr0 in Hfree. cbn in Hfree. congruence. }
        rewrite Hl4. f_equal. f_equal. congruence.
  - (* the unit is skipped *)
    do 3 eexists. split; [reflexivity|]. cbn.
    split; [reflexivity|]. split; [reflexivity|]. split; [exact Hgrow|].
    left. split; [reflexivity|].
    split; [norm_invocations Hinv; reflexivity|].
    split; [exact Hsch|]. split; [exact Hled|].
    intros Hz. destruct (Hok Hz) as (Hl1 & _ & Hb).
    exists (default ∅ (ledger (db s))). split; [exact Hl1|].
    destruct (default ∅ (ledger (db s)) !! meta_id (meta m)) eqn:E; [eauto|].
    destruct Hb as [_ Hb]. specialize (Hb eq_refl). discriminate.
Qed.

Lemma for_each_cons {A : Type} (body : A -> Async unit) (x : A) (l : list A) (s : state) :
  for_each body (x :: l) s =
  match body x s with
  | (Resolved _, s') => for_each body l s'
  | (Rejected e, s') => (Rejected e, s')
  end.
Proof. reflexivity. Qed.

Lemma for_each_app {A : Type} (body : A -> Async unit) (l1 l2 : list A) (s s1 : state) :
  for_each body l1 s = (Resolved tt, s1) ->
  for_each body (l1 ++ l2) s = for_each body l2 s1.
Proof.
  revert s. induction l1 as [|x l1 IH]; intros s H.
  - cbn in H. injection H as <-. reflexivity.
  - cbn [app]. rewrite for_each_cons in *.
    destruct (body x s) as [[[]|e] s0]; [now apply IH|discriminate].
Qed.

Lemma loop_rejected_later (m : Migration) (ms : list Migration) (d1 d : list event)
    (n : nat) (e : error) :
  ((0 < n)%nat /\
   exists u,
     ms !! (n - 1)%nat = Some u /\
     last (calls Up d) = Some u /\
     last d = Some (ConsoleError (apply_failed_message u) e)) ->
  (0 < S n)%nat /\
  exists u,
    (m :: ms) !! (S n - 1)%nat = Some u /\
    last (calls Up (d1 ++ d)) = Some u /\
    last (d1 ++ d) = Some (ConsoleError (apply_failed_message u) e).
Proof.
  intros (Hn & u & Hu & Hup & Hlast). split; [lia|]. exists u.
  rewrite calls_app, !last_app, Hup, Hlast.
  split; [|auto]. destruct n as [|n]; [lia|].
  cbn in *. now rewrite Nat.sub_0_r in Hu.
Qed.

(** What a run of the loop over [ms] does: it enters [validate] on a prefix of
    [ms], in order, never changes the loaded units and never loses a ledger
    row; when it resolves it has gone through all of [ms], the schema has
    grown by the statements of the units whose [up] was entered, each of
    them is recorded, and, if no error was logged, every unit of [ms] is
    recorded. *)
Lemma for_each_apply_spec (ms : list Migration) (s : state) :
  exists r s' delta n,
    for_each apply_one ms s = (r, s') /\
    trace s' = trace s ++ delta /\
    migrations s' = migrations s /\
    (forall id, recorded id (db s) -> recorded id (db s')) /\
    calls Validate delta = take n ms /\
    sublist (calls Up delta) (take n ms) /\
    (forall e, r = Rejected e ->
       (0 < n)%nat /\
       exists m,
         ms !! (n - 1)%nat = Some m /\
         last (calls Up delta) = Some m /\
         last delta = Some (ConsoleError (apply_failed_message m) e)) /\
    (r = Resolved tt ->
       n = length ms /\
       schema (db s') = schema (db s) ++ concat (map up_queries (calls Up delta)) /\
       calls RecordMigration delta = calls Up delta /\
       (forall u, In u (calls Up delta) -> recorded (meta_id (meta u)) (db s')) /\
       (error_count delta = 0%nat ->
          Forall (fun m => recorded (meta_id (meta m)) (db s')) ms)).
Proof.
  revert s. induction ms as [|m ms IH]; intros s.
  - exists (Resolved tt), s, [], 0%nat. cbn. rewrite !app_nil_r.
    repeat split; auto; try discriminate. intros u [].
  - rewrite for_each_cons.
    destruct (apply_one_spec m s) as (r1 & s1 & d1 & Hrun & Ht1 & Hm1 & Hg1 & Hcases).
    cbv zeta in Hcases. rewrite Hrun.
    destruct Hcases as [ (-> & Hi & Hsch & Hled & Hrec)
                       | [ (-> & Hi & Hz & Hsch & Hnew & Hled)
                       | [ (q & -> & Hq & Hi & Hlast & Hsch & Hled & Hnot)
                         | (e & -> & Hi & Hlast & Hsch & Hled & Hnot) ]]].
    + (* skipped *)
      destruct (IH s1)
        as (r & s' & d & n & Hrun' & Ht & Hm & Hg & Hv & Hsub & Hrej & Hres).
      exists r, s', (d1 ++ d), (S n). rewrite Hrun'.
      split; [reflexivity|]. split; [now rewrite Ht, Ht1, app_assoc|].
      split; [congruence|]. split; [auto|].
      pose proof (fun e He => loop_rejected_later m ms d1 d n e (Hrej e He)) as Hrej'.
      revert Hrej'.
      rewrite !calls_app, !(calls_invocations _ d1), Hi, error_count_app. cbn.
      intros Hrej'.
      split; [now rewrite Hv|]. split; [now apply sublist_cons|].
      split; [exact Hrej'|].
      intros ->. destruct (Hres eq_refl) as (-> & Hs' & Hrm & Hup & Hall).
      repeat split; auto.
      * now rewrite Hs', Hsch.
      * intros Hz. constructor; [apply Hg, Hrec; lia|apply Hall; lia].
    + (* applied and recorded *)
      destruct (IH s1)
        as (r & s' & d & n & Hrun' & Ht & Hm & Hg & Hv & Hsub & Hrej & Hres).
      exists r, s', (d1 ++ d), (S n). rewrite Hrun'.
      split; [reflexivity|]. split; [now rewrite Ht, Ht1, app_assoc|].
      split; [congruence|]. split; [auto|].
      pose proof (fun e He => loop_rejected_later m ms d1 d n e (Hrej e He)) as Hrej'.
      revert Hrej'.
      rewrite !calls_app, !(calls_invocations _ d1), Hi, error_count_app. cbn.
      intros Hrej'.
      split; [now rewrite Hv|]. split; [now apply sublist_skip|].
      split; [exact Hrej'|].
      intros ->. destruct (Hres eq_refl) as (-> & Hs' & Hrm & Hup & Hall).
      assert (Hm' : recorded (meta_id (meta m)) (db s')).
      { apply Hg. eexists. split; [exact Hled|]. rewrite lookup_insert_eq. eauto. }
      repeat split; auto.
      * now rewrite Hs', Hsch, <- app_assoc.
      * now rewrite Hrm.
      * intros u [<-|Hu]; auto.
      * intros Hz'. constructor; [exact Hm'|apply Hall; lia].
    + (* up failed *)
      exists (Rejected q), s1, d1, 1%nat.
      split; [reflexivity|]. split; [exact Ht1|]. split; [exact Hm1|].
      split; [exact Hg1|].
      rewrite !(calls_invocations _ d1), Hi. cbn.
      split; [reflexivity|]. split; [reflexivity|].
      split; [|discriminate].
      intros e' [= <-]. split; [lia|]. exists m. auto.
    + (* recording failed *)
      exists (Rejected e), s1, d1, 1%nat.
      split; [reflexivity|]. split; [exact Ht1|]. split; [exact Hm1|].
      split; [exact Hg1|].
      rewrite !(calls_invocations _ d1), Hi. cbn.
      split; [reflexivity|]. split; [reflexivity|].
      split; [|discriminate].
      intros e' [= <-]. split; [lia|]. exists m. auto.
Qed.

(** When every unit is recorded, the loop validates each in turn and does
    nothing else. *)
Lemma for_each_recorded_skips (ms : list Migration) (s : state) :
  Forall (fun m => recorded (meta_id (meta m)) (db s)) ms ->
  exists s' delta,
    for_each apply_one ms s = (Resolved tt, s') /\
    db s' = db s /\
    trace s' = trace s ++ delta /\
    invocations delta = map (fun m => (Validate, m)) ms.
Proof.
  revert s. induction ms as [|m ms IH]; intros s Hall.
  - exists s, []. cbn. now rewrite app_nil_r.
  - inversion Hall as [|? ? Hm Hms]; subst.
    rewrite for_each_cons.
    destruct (apply_one_spec m s) as (r1 & s1 & d1 & Hrun & Ht1 & Hm1 & Hg1 & Hcases).
    cbv zeta in Hcases. rewrite Hrun.
    destruct Hcases as [ (-> & Hi & Hsch & Hled & Hrec)
                       | [ (-> & Hi & Hz & Hsch & Hnew & Hled)
                       | [ (q & -> & Hq & Hi & Hlast & Hsch & Hled & Hnot)
                         | (e & -> & Hi & Hlast & Hsch & Hled & Hnot) ]]].
    + assert (Hdb : db s1 = db s).
      { destruct Hm as (rows & Hrows & _).
        destruct Hled as [Hl|[Hl _]]; [|congruence].
        destruct (db s1), (db s). cbn in *. congruence. }
      destruct (IH s1) as (s' & d & Hrun' & Hdb' & Ht & Hinv).
      { rewrite Hdb. exact Hms. }
      exists s', (d1 ++ d). rewrite Hrun'.
      split; [reflexivity|]. split; [congruence|].
      split; [now rewrite Ht, Ht1, app_assoc|].
      rewrite invocations_app, Hi, Hinv. reflexivity.
    + contradiction.
    + elim Hnot. auto.
    + elim Hnot. auto.
Qed.

Lemma applyMigrations_unfold (s : state) :
  applyMigrations s = for_each apply_one (migrations s) s.
Proof. reflexivity. Qed.

Lemma only_validated (f : method) (ms : list Migration) :
  method_eqb f Validate = false ->
  map snd (List.filter (fun p => method_eqb f (fst p))
                       (map (fun m => (Validate, m)) ms)) = [].
Proof.
  intros H. induction ms as [|m ms IH]; simpl; [reflexivity|].
  rewrite H. exact IH.
Qed.

(** *** When the database raises no error *)

Lemma validate_without_faults (this : Migration) (s : state) :
  faults s = [] ->
  let rows := default ∅ (ledger (db s)) in
  exists delta,
    validate this s =
      (Resolved (match rows !! meta_id (meta this) with Some _ => false | None => true end),
       State (migrations s) {| schema := schema (db s); ledger := Some rows |}
             (snapshot s) [] (trace s ++ delta)) /\
    error_count delta = 0%nat /\
    calls Up delta = [].
Proof.
  destruct s as [ms [sch [rows|]] snap fs tr]; cbn [faults]; intros ->; run_async.
  - destruct (rows !! meta_id (meta this)); cbn; rewrite <- !app_assoc;
      eexists; (split; [reflexivity|]); split; reflexivity.
  - rewrite lookup_empty. cbn. rewrite <- !app_assoc.
    eexists; (split; [reflexivity|]); split; reflexivity.
Qed.

Lemma recordMigration_without_faults (this : Migration) (checksum : string) (s : state)
    (rows : gmap string LedgerRow) :
  faults s = [] ->
  ledger (db s) = Some rows ->
  rows !! meta_id (meta this) = None ->
  recordMigration this checksum s =
    (Resolved tt,
     State (migrations s)
           {| schema := schema (db s);
              ledger := Some (<[meta_id (meta this) := ledger_row this checksum]> rows) |}
           (snapshot s) []
           (trace s ++ [Invoked RecordMigration this;
                        Query (SqlInsert (meta_id (meta this)) (ledger_row this checksum))])).
Proof.
  destruct s as [ms [sch led] snap fs tr]; cbn [faults db ledger]; intros -> -> E.
  run_async. rewrite E. fold (ledger_row this checksum). now rewrite <- !app_assoc.
Qed.

Lemma apply_one_without_faults (m : Migration) (s : state) :
  faults s = [] ->
  let id := meta_id (meta m) in
  let rows := default ∅ (ledger (db s)) in
  exists s' delta,
    apply_one m s = (Resolved tt, s') /\
    faults s' = [] /\
    migrations s' = migrations s /\
    trace s' = trace s ++ delta /\
    error_count delta = 0%nat /\
    match rows !! id with
    | Some _ =>
        db s' = {| schema := schema (db s); ledger := Some rows |} /\
        calls Up delta = []
    | None =>
        db s' = {| schema := schema (db s) ++ up_queries m;
                   ledger := Some (<[id := ledger_row m (generateChecksum m)]> rows) |} /\
        calls Up delta = [m]
    end.
Proof.
  intros Hf. cbv zeta. rewrite apply_one_cases.
  destruct (validate_without_faults m s Hf) as (dv & -> & Hdv & Hcv). cbv zeta.
  destruct (default ∅ (ledger (db s)) !! meta_id (meta m)) as [r|] eqn:E.
  - do 2 eexists. split; [reflexivity|]. cbn. repeat apply conj; auto.
  - rewrite up_spec. cbn [faults db migrations trace record_event].
    rewrite batch_end_of_nil. cbv zeta.
    unfold batch_outcome, batch_database. rewrite drop_nil.
    cbn [schema ledger].
    erewrite recordMigration_without_faults; [|reflexivity|reflexivity|exact E].
    do 2 eexists. split; [reflexivity|].
    cbn [faults migrations trace db record_event schema ledger].
    rewrite <- !app_assoc.
    repeat apply conj; try reflexivity.
    + rewrite !error_count_app, Hdv. cbn -[batch_trace].
      now rewrite error_count_batch_trace.
    + rewrite !calls_app, Hcv. cbn -[batch_trace]. now rewrite calls_batch_trace.
Qed.

Lemma for_each_without_faults (ms : list Migration) (s : state) :
  faults s = [] ->
  let rows := default ∅ (ledger (db s)) in
  exists s' delta,
    for_each apply_one ms s = (Resolved tt, s') /\
    faults s' = [] /\
    migrations s' = migrations s /\
    trace s' = trace s ++ delta /\
    error_count delta = 0%nat /\
    calls Up delta = pending rows ms /\
    schema (db s') = schema (db s) ++ concat (map up_queries (pending rows ms)) /\
    default ∅ (ledger (db s')) = record_all rows (pending rows ms) /\
    (ms <> [] \/ ledger (db s) <> None -> ledger (db s') <> None).
Proof.
  revert s. induction ms as [|m ms IH]; intros s Hf; cbv zeta.
  - exists s, []. cbn. rewrite !app_nil_r. repeat apply conj; auto.
    intros [H|H]; congruence.
  - rewrite for_each_cons.
    destruct (apply_one_without_faults m s Hf) as (s1 & d1 & -> & Hf1 & Hm1 & Ht1 & He1 & Hcase).
    cbv zeta in Hcase.
    destruct (IH s1 Hf1) as (s' & d & Hrun & Hf' & Hm' & Ht' & He' & Hc' & Hsch' & Hled' & Hk).
    cbv zeta in *.
    exists s', (d1 ++ d). split; [exact Hrun|]. split; [exact Hf'|].
    split; [congruence|]. split; [now rewrite Ht', Ht1, app_assoc|].
    split; [rewrite error_count_app; lia|].
    assert (Hkeep : ledger (db s') <> None).
    { apply Hk. right.
      destruct (default ∅ (ledger (db s)) !! meta_id (meta m));
        destruct Hcase as [-> _]; discriminate. }
    cbn [pending].
    destruct (default ∅ (ledger (db s)) !! meta_id (meta m)) as [r|] eqn:E;
      destruct Hcase as [Hdb Hc1]; rewrite Hdb in *; cbn [schema ledger default] in *.
    + rewrite calls_app, Hc1, Hc'. repeat apply conj; auto.
    + rewrite calls_app, Hc1, Hc'. cbn [app map concat record_all fold_left].
      rewrite Hsch', <- app_assoc. repeat apply conj; auto.
Qed.

(** C6: after an [applyMigrations()] that resolved without any error
    being logged, every loaded unit is recorded, and a second
    [applyMigrations()] resolves having validated each unit and nothing
    else: [up()] and [recordMigration()] are entered on no unit and the
    database, ledger included, is unchanged. *)
Theorem applyMigrations_twice (s0 s1 : state) :
  applyMigrations s0 = (Resolved tt, s1) ->
  error_count (trace s1) = error_count (trace s0) ->
  Forall (fun m => recorded (meta_id (meta m)) (db s1)) (migrations s1) /\
  exists s2 delta,
    applyMigrations s1 = (Resolved tt, s2) /\
    trace s2 = trace s1 ++ delta /\
    invocations delta = map (fun m => (Validate, m)) (migrations s1) /\
    calls Up delta = [] /\
    calls RecordMigration delta = [] /\
    db s2 = db s1.
Proof.
  intros Hrun Herr. rewrite applyMigrations_unfold in Hrun.
  destruct (for_each_apply_spec (migrations s0) s0)
    as (r & s' & d & n & Hrun' & Ht & Hm & _ & _ & _ & _ & Hres).
  rewrite Hrun in Hrun'. injection Hrun' as <- <-.
  destruct (Hres eq_refl) as (_ & _ & _ & _ & Hall).
  assert (Hrec : Forall (fun m => recorded (meta_id (meta m)) (db s1)) (migrations s1)).
  { rewrite Hm. apply Hall. rewrite Ht, error_count_app in Herr. lia. }
  split; [exact Hrec|].
  destruct (for_each_recorded_skips _ _ Hrec) as (s2 & delta & Hrun2 & Hdb & Ht2 & Hinv).
  exists s2, delta. rewrite applyMigrations_unfold.
  repeat split; auto.
  - rewrite calls_invocations, Hinv. now apply only_validated.
  - rewrite calls_invocations, Hinv. now apply only_validated.
Qed.

Lemma applyMigrations_twice_witness :
  let s0 := initial_state [StrategyManagementMigration; QueryOptimizationMigration]
                          empty_database in
  let s1 := snd (applyMigrations s0) in
  Forall (fun m => recorded (meta_id (meta m)) (db s1)) (migrations s1) /\
  exists s2 delta,
    applyMigrations s1 = (Resolved tt, s2) /\
    trace s2 = trace s1 ++ delta /\
    invocations delta = map (fun m => (Validate, m)) (migrations s1) /\
    calls Up delta = [] /\
    calls RecordMigration delta = [] /\
    db s2 = db s1.
Proof.
  intros s0 s1. apply (applyMigrations_twice s0 s1).
  - vm_compute. reflexivity.
  - vm_compute. reflexivity.
Defined.

(** C4: when the loop has gone through the units before [m], [validate]
    finds [m] pending and [up()] of [m] rejects with [e], then
    [applyMigrations()] rejects with [e], logged under the name of [m]; [e]
    is the error of taking a client, of a request of the batch of [m] or of
    [ROLLBACK]. The schema is the one the loop had reached at [m], with
    nothing more unless [ROLLBACK] itself was refused, and that schema holds
    the statements of every earlier unit applied by this call; every ledger
    row present when the loop reached [m] is still there, and each earlier
    unit applied by this call is recorded; no row is held under the id of
    [m]; and the last methods entered are [validate] and [up] of [m]:
    [recordMigration] is not entered on [m], and nothing is entered on the
    units after it. *)
Theorem applyMigrations_stops_at_failure
    (ms1 ms2 : list Migration) (m : Migration) (s s1 s2 s3 : state) (e : error) :
  migrations s = ms1 ++ m :: ms2 ->
  for_each apply_one ms1 s = (Resolved tt, s1) ->
  validate m s1 = (Resolved true, s2) ->
  up m (record_event (ConsoleLog (applying_message m)) s2) = (Rejected e, s3) ->
  let s' := record_event (ConsoleError (apply_failed_message m) e) s3 in
  applyMigrations s = (Rejected e, s') /\
  batch_error (up_queries m) e /\
  (exists rest,
     schema (db s') = schema (db s1) ++ rest /\
     (e <> DatabaseError SqlRollback -> rest = [])) /\
  (forall id, recorded id (db s1) -> recorded id (db s')) /\
  (forall delta1, trace s1 = trace s ++ delta1 ->
     schema (db s1) = schema (db s) ++ concat (map up_queries (calls Up delta1)) /\
     forall u, In u (calls Up delta1) -> recorded (meta_id (meta u)) (db s')) /\
  ~ recorded (meta_id (meta m)) (db s') /\
  invocations (trace s') = invocations (trace s1) ++ [(Validate, m); (Up, m)].
Proof.
  intros Hms H1 Hv Hup s'.
  (* the run *)
  assert (Hrun : applyMigrations s = (Rejected e, s')).
  { rewrite applyMigrations_unfold, Hms, (for_each_app _ _ _ _ _ H1), for_each_cons.
    rewrite apply_one_cases, Hv. cbv zeta. rewrite Hup. reflexivity. }
  (* what validate did *)
  destruct (validate_spec m s1)
    as (b & d2 & fs2 & dv & Hv' & Hinv & Hsch2 & Hled2 & _ & Hok & Herr & _).
  rewrite Hv in Hv'. injection Hv' as <- ->.
  destruct (Nat.eq_dec (error_count dv) 0%nat) as [Hz|Hnz];
    [|specialize (Herr Hnz); discriminate].
  destruct (Hok Hz) as (Hl2 & _ & Hb). assert (Hfree := proj1 Hb eq_refl). clear Hb.
  (* what up did *)
  rewrite up_spec in Hup. cbv zeta in Hup. cbn -[drop batch_trace batch_end_of] in Hup.
  injection Hup as Hout <-.
  destruct (batch_outcome_Rejected _ _ _ d2 Hout) as [Herror _].
  destruct (batch_database_Rejected _ _ _ d2 Hout) as (rest & Hrest & Hnone).
  pose proof (ledger_batch_database (up_queries m) (batch_end_of fs2 (up_queries m)) d2)
    as Hlb.
  subst s'. cbn -[drop batch_trace batch_end_of].
  assert (Hgrow : forall id, recorded id (db s1) ->
                    recorded id (batch_database (up_queries m)
                                   (batch_end_of fs2 (up_queries m)) d2)).
  { intros id (rows & Hrows & Hrow). exists rows. split; [|exact Hrow].
    rewrite Hlb. destruct Hled2 as [->|[E' _]]; congruence. }
  split; [exact Hrun|].
  split; [exact Herror|].
  split; [exists rest; split; [now rewrite Hrest, Hsch2|exact Hnone]|].
  split; [exact Hgrow|].
  split.
  { intros delta1 Ht.
    destruct (for_each_apply_spec ms1 s)
      as (r & s1' & d & n & Hrun1 & Ht1 & _ & _ & _ & _ & _ & Hres).
    rewrite H1 in Hrun1. injection Hrun1 as <- <-.
    rewrite Ht1 in Ht. apply app_inv_head in Ht. subst delta1.
    destruct (Hres eq_refl) as (_ & Hs1 & _ & Hrec & _).
    split; [exact Hs1|]. intros u Hu. apply Hgrow. auto. }
  split; [eapply not_recorded_None; [|exact Hfree]; congruence|].
  rewrite !invocations_app. cbn -[batch_trace batch_end_of].
  rewrite Hinv, invocations_batch_trace, !app_nil_r, <- app_assoc. reflexivity.
Qed.

Lemma applyMigrations_stops_at_failure_witness :
  let s := failing_state in
  let s1 := snd (apply_one StrategyManagementMigration s) in
  let s2 := snd (validate QueryOptimizationMigration s1) in
  let e := DatabaseError
             (SqlText "CREATE INDEX idx_query_performance_hash ON query_performance(query_hash)") in
  let s3 := snd (up QueryOptimizationMigration
                    (record_event (ConsoleLog (applying_message QueryOptimizationMigration))
                                  s2)) in
  let s' := record_event (ConsoleError (apply_failed_message QueryOptimizationMigration) e)
                         s3 in
  applyMigrations s = (Rejected e, s') /\
  schema (db s') = up_queries StrategyManagementMigration /\
  recorded (meta_id (meta StrategyManagementMigration)) (db s') /\
  ~ recorded (meta_id (meta QueryOptimizationMigration)) (db s') /\
  invocations (trace s')
  = invocations (trace s1)
    ++ [(Validate, QueryOptimizationMigration); (Up, QueryOptimizationMigration)].
Proof.
  intros s s1 s2 e s3 s'.
  destruct (applyMigrations_stops_at_failure
              [StrategyManagementMigration] [LaterMigration] QueryOptimizationMigration
              s s1 s2 s3 e)
    as (Hrun & _ & (rest & Hsch & Hrest) & Hkeep & _ & Hnot & Hinv).
  - reflexivity.
  - vm_compute. reflexivity.
  - vm_compute. reflexivity.
  - vm_compute. reflexivity.
  - split; [exact Hrun|].
    split; [fold s' in Hsch; rewrite Hsch, (Hrest ltac:(discriminate)), app_nil_r;
            vm_compute; reflexivity|].
    split; [|split; [exact Hnot|exact Hinv]].
    apply Hkeep, recordedb_true. vm_compute. reflexivity.
Defined.

(** ** Loading ([MigrationManager.loadMigrations]) *)

Lemma import_all_resolved (files : list (string * option Migration)) (s s' : state) :
  import_all (List.filter (fun f => is_migration_file (fst f)) files) s = (Resolved tt, s') ->
  s' = set_migrations (migrations s ++ discovered files) s.
Proof.
  revert s. induction files as [|[f [m|]] files IH]; intros s H; cbn in *.
  - injection H as <-. destruct s. unfold set_migrations. cbn. now rewrite app_nil_r.
  - destruct (is_migration_file f); [|now apply IH].
    cbn in H. unfold bind in H. cbn in H. apply IH in H. subst s'.
    destruct s. unfold set_migrations. cbn. now rewrite <- app_assoc.
  - destruct (is_migration_file f); [|now apply IH].
    cbn in H. discriminate.
Qed.

Lemma loadMigrations_resolved (files : list (string * option Migration)) (s s' : state) :
  loadMigrations (Some files) s = (Resolved tt, s') ->
  s' = set_migrations (JS.sort by_version (migrations s ++ discovered files)) s.
Proof.
  unfold loadMigrations, try_catch, bind.
  destruct (import_all _ s) as [[[]|e] s1] eqn:E; [|discriminate].
  apply import_all_resolved in E. subst s1. intros [= <-].
  destruct s. reflexivity.
Qed.

Lemma discovered_Permutation (files files' : list (string * option Migration)) :
  Permutation files files' -> Permutation (discovered files) (discovered files').
Proof.
  induction 1 as [|x l l' _ IH|x y l|l1 l2 l3 _ IH1 _ IH2].
  - reflexivity.
  - destruct x as [f [m|]]; cbn; [destruct (is_migration_file f)|]; auto.
  - destruct x as [f1 [m1|]], y as [f2 [m2|]]; cbn;
      repeat match goal with |- context [is_migration_file ?f] =>
               destruct (is_migration_file f) end;
      auto using perm_swap.
  - etransitivity; eauto.
Qed.

(** C1: units are loaded whose versions are all numeric. Whatever the order
    of the directory listing, after a [loadMigrations()] that resolves the
    Manager's array holds the units it held before and those discovered,
    sorted non-decreasing by the version comparator; and
    [applyMigrations()] then enters [validate], and [up] where it applies,
    on the units in that order: on all of them when it resolves; when it
    rejects, on a prefix that is not empty, [up] having been entered last on
    the last unit visited, under whose name the error is logged. When the
    database raises no error it resolves, having entered [up] on the
    pending units in the order of the array. *)
Theorem loadMigrations_sorted_then_applied_in_order
    (files : list (string * option Migration)) (s s' : state) :
  Forall (fun m => numeric_version (meta_version (meta m)) = true)
         (migrations s ++ discovered files) ->
  loadMigrations (Some files) s = (Resolved tt, s') ->
  StronglySorted version_le (migrations s') /\
  Permutation (migrations s') (migrations s ++ discovered files) /\
  (forall files' s'',
     Permutation files files' ->
     loadMigrations (Some files') s = (Resolved tt, s'') ->
     StronglySorted version_le (migrations s'') /\
     Permutation (migrations s'') (migrations s')) /\
  exists r s'' delta n,
    applyMigrations s' = (r, s'') /\
    trace s'' = trace s' ++ delta /\
    calls Validate delta = take n (migrations s') /\
    sublist (calls Up delta) (take n (migrations s')) /\
    (r = Resolved tt -> n = length (migrations s')) /\
    (forall e, r = Rejected e ->
       (0 < n)%nat /\
       exists m,
         migrations s' !! (n - 1)%nat = Some m /\
         last (calls Up delta) = Some m /\
         last delta = Some (ConsoleError (apply_failed_message m) e)) /\
    (faults s' = [] ->
       r = Resolved tt /\
       calls Up delta = pending (default ∅ (ledger (db s'))) (migrations s')).
Proof.
  intros _ H. apply loadMigrations_resolved in H. subst s'.
  assert (Hm : migrations (set_migrations
                 (JS.sort by_version (migrations s ++ discovered files)) s)
               = JS.sort by_version (migrations s ++ discovered files))
    by (destruct s; reflexivity).
  rewrite Hm.
  split; [apply sort_by_version_sorted|].
  split; [apply sort_Permutation|].
  split.
  - intros files' s'' Hperm H'. apply loadMigrations_resolved in H'. subst s''.
    replace (migrations (set_migrations _ s))
      with (JS.sort by_version (migrations s ++ discovered files'))
      by (destruct s; reflexivity).
    split; [apply sort_by_version_sorted|].
    rewrite !sort_Permutation. apply Permutation_app_head.
    symmetry. now apply discovered_Permutation.
  - rewrite applyMigrations_unfold, Hm.
    set (sorted := JS.sort by_version (migrations s ++ discovered files)).
    destruct (for_each_apply_spec sorted (set_migrations sorted s))
      as (r & s'' & d & n & Hrun & Ht & _ & _ & Hv & Hsub & Hrej & Hres).
    exists r, s'', d, n.
    split; [exact Hrun|]. split; [exact Ht|]. split; [exact Hv|].
    split; [exact Hsub|].
    split; [intros ->; now destruct (Hres eq_refl)|].
    split; [exact Hrej|].
    intros Hf.
    destruct (for_each_without_faults sorted (set_migrations sorted s) Hf)
      as (s2 & d2 & Hrun2 & _ & _ & Ht2 & _ & Hup & _).
    rewrite Hrun in Hrun2. injection Hrun2 as -> ->.
    rewrite Ht in Ht2. apply app_inv_head in Ht2. subst d2.
    split; [reflexivity|exact Hup].
Qed.

Lemma loadMigrations_sorted_then_applied_in_order_witness :
  let s := initial_state [] empty_database in
  let s' := initial_state [StrategyManagementMigration; QueryOptimizationMigration]
                          empty_database in
  loadMigrations (Some versions_listing) s = (Resolved tt, s') /\
  StronglySorted version_le (migrations s') /\
  Permutation (migrations s') (migrations s ++ discovered versions_listing) /\
  exists s'' delta,
    applyMigrations s' = (Resolved tt, s'') /\
    trace s'' = trace s' ++ delta /\
    calls Validate delta = [StrategyManagementMigration; QueryOptimizationMigration] /\
    calls Up delta = [StrategyManagementMigration; QueryOptimizationMigration].
Proof.
  intros s s'.
  assert (H : loadMigrations (Some versions_listing) s = (Resolved tt, s'))
    by (vm_compute; reflexivity).
  split; [exact H|].
  destruct (loadMigrations_sorted_then_applied_in_order versions_listing s s')
    as (Hsorted & Hperm & _ & r & s'' & delta & n & Hrun & Ht & Hv & _ & Hn & _ & Hff).
  - repeat constructor.
  - exact H.
  - split; [exact Hsorted|]. split; [exact Hperm|].
    destruct (Hff eq_refl) as [-> Hup]. rewrite (Hn eq_refl) in Hv.
    exists s'', delta.
    split; [exact Hrun|]. split; [exact Ht|]. split; [exact Hv|].
    rewrite Hup. lazy. reflexivity.
Defined.

(** ** Checksums ([MigrationManager.generateChecksum]) *)

(** The implementation of SHA-256 on the test vectors of FIPS 180-4, and on
    the first unit of the repository. *)
Example sha256_abc :
  SHA256.hexdigest "abc"
  = "ba7816bf8f01cfea414140de5dae2223b00361a396177a9cb410ff61f20015ad".
Proof. vm_compute. reflexivity. Qed.

Example sha256_empty :
  SHA256.hexdigest ""
  = "e3b0c44298fc1c149afbf4c8996fb92427ae41e4649b934ca495991b7852b855".
Proof. vm_compute. reflexivity. Qed.

Example sha256_two_blocks :
  SHA256.hexdigest "abcdbcdecdefdefgefghfghighijhijkijkljklmklmnlmnomnopnopq"
  = "248d6a61d20638b8e5c026930c3e6039a33ce45964ff2167f6ecedd419db06c1".
Proof. vm_compute. reflexivity. Qed.

Example generateChecksum_first_unit :
  generateChecksum StrategyManagementMigration
  = "03271d98bbf27e921585a0499eb989b2a962e9c22b63acf94e16235e21e8df01".
Proof. vm_compute. reflexivity. Qed.

Lemma generateChecksum_content (m : Migration) :
  generateChecksum m = SHA256.hexdigest (checksum_content m).
Proof. reflexivity. Qed.

(** *** The serialization determines the four fields *)

Lemma append_nil (b : string) : "" +:+ b = b.
Proof. reflexivity. Qed.

Lemma append_cons (x : ascii) (a b : string) : String x a +:+ b = String x (a +:+ b).
Proof. reflexivity. Qed.

Lemma append_assoc (a b c : string) : (a +:+ b) +:+ c = a +:+ (b +:+ c).
Proof.
  induction a as [|x a IH]; [reflexivity|]. now rewrite !append_cons, IH.
Qed.

Lemma unescape_escape_char (c : ascii) (rest : string) :
  unescape_head (JSON.escape_char c +:+ rest) = Some (c, rest).
Proof.
  destruct c as [[] [] [] [] [] [] [] []]; reflexivity.
Qed.

Lemma unescape_dquote (rest : string) :
  unescape_head (String JSON.dquote rest) = None.
Proof. reflexivity. Qed.

(** An escaped string followed by a closing quote can be read back in one
    way only. *)
Lemma escape_until_quote (s1 s2 rest1 rest2 : string) :
  JSON.escape s1 +:+ String JSON.dquote rest1
  = JSON.escape s2 +:+ String JSON.dquote rest2 ->
  s1 = s2 /\ rest1 = rest2.
Proof.
  revert s2. induction s1 as [|c1 s1 IH]; intros [|c2 s2] H;
    cbn [JSON.escape] in H; rewrite ?append_assoc, ?append_nil in H.
  - injection H as ->. auto.
  - apply (f_equal unescape_head) in H.
    rewrite unescape_dquote, unescape_escape_char in H. discriminate.
  - apply (f_equal unescape_head) in H.
    rewrite unescape_dquote, unescape_escape_char in H. discriminate.
  - apply (f_equal unescape_head) in H. rewrite !unescape_escape_char in H.
    injection H as -> H. apply IH in H. destruct H as [-> ->]. auto.
Qed.

Lemma String_tail (c : ascii) (x y : string) : String c x = String c y -> x = y.
Proof. now intros [=]. Qed.

Lemma quote_until_rest (s1 s2 rest1 rest2 : string) :
  JSON.quote s1 +:+ rest1 = JSON.quote s2 +:+ rest2 -> s1 = s2 /\ rest1 = rest2.
Proof.
  unfold JSON.quote. rewrite !append_cons, !append_assoc, !append_cons, !append_nil.
  intros H. apply String_tail in H. now apply escape_until_quote.
Qed.

Lemma checksum_content_injective (m1 m2 : Migration) :
  checksum_content m1 = checksum_content m2 ->
  meta_id (meta m1) = meta_id (meta m2) /\
  meta_name (meta m1) = meta_name (meta m2) /\
  meta_version (meta m1) = meta_version (meta m2) /\
  meta_description (meta m1) = meta_description (meta m2).
Proof.
  unfold checksum_content, JSON.stringify. cbn [JSON.members].
  rewrite !append_assoc, !append_cons, !append_nil. intros H. apply String_tail in H.
  repeat match type of H with
         | JSON.quote _ +:+ _ = JSON.quote _ +:+ _ =>
             apply quote_until_rest in H; destruct H as [? H]
         | String _ _ = String _ _ => apply String_tail in H
         end.
  auto.
Qed.

(** *** A digest is a number below 2^256 *)

Lemma add32_word32 (x y : Z) : word32 (SHA256.add32 x y).
Proof. unfold word32, SHA256.add32. apply Z.mod_pos_bound. reflexivity. Qed.

Lemma compress_bounded (h : SHA256.registers) (block : list Z) :
  registers_bounded (SHA256.compress h block).
Proof. unfold registers_bounded, SHA256.compress. cbn. repeat split; apply add32_word32. Qed.

Lemma H0_bounded : registers_bounded SHA256.H0.
Proof. unfold registers_bounded, word32. cbn. repeat split; vm_compute; congruence. Qed.

Lemma hash_bounded (msg : list Z) : registers_bounded (SHA256.hash msg).
Proof.
  unfold SHA256.hash.
  generalize (SHA256.blocks (length (SHA256.words_of_bytes (SHA256.pad msg)))
                            (SHA256.words_of_bytes (SHA256.pad msg))).
  intros bs. generalize H0_bounded. generalize SHA256.H0.
  induction bs as [|b bs IH]; intros h Hh; cbn [fold_left]; [exact Hh|].
  apply IH, compress_bounded.
Qed.

Lemma pack_bound (ws : list Z) (acc n : Z) :
  0 <= n -> 0 <= acc < 2 ^ n -> Forall word32 ws ->
  0 <= fold_left (fun a w => a * 2 ^ 32 + w) ws acc < 2 ^ (n + 32 * Z.of_nat (length ws)).
Proof.
  revert acc n. induction ws as [|w ws IH]; intros acc n Hn Hacc Hws.
  - cbn. now rewrite Z.add_0_r.
  - inversion Hws as [|? ? Hw Hws']; subst. cbn [fold_left].
    replace (n + 32 * Z.of_nat (length (w :: ws)))
      with ((n + 32) + 32 * Z.of_nat (length ws))
      by (cbn [length]; lia).
    apply IH; [lia| |exact Hws'].
    unfold word32 in Hw. rewrite Z.pow_add_r by lia.
    assert (0 < 2 ^ 32) by reflexivity. nia.
Qed.

Lemma digest_bound (msg : list Z) : 0 <= SHA256.digest msg < 2 ^ 256.
Proof.
  unfold SHA256.digest. destruct (hash_bounded msg) as (?&?&?&?&?&?&?&?).
  set (h := SHA256.hash msg) in *.
  assert (Hws : Forall word32
                  [SHA256.ra h; SHA256.rb h; SHA256.rc h; SHA256.rd h;
                   SHA256.re h; SHA256.rf h; SHA256.rg h; SHA256.rh h])
    by (repeat (apply Forall_cons_2; [assumption|]); apply Forall_nil_2).
  exact (pack_bound _ 0 0 (Z.le_refl 0) (conj (Z.le_refl 0) eq_refl) Hws).
Qed.

(** *** The pigeonhole principle on an interval of integers *)

Lemma bounded_search (f : Z -> Z) (v M : Z) :
  0 <= M ->
  (exists i, 0 <= i < M /\ f i = v) \/ (forall i, 0 <= i < M -> f i <> v).
Proof.
  intros HM. pattern M. apply natlike_ind; [| |exact HM].
  - right. intros i Hi. lia.
  - intros x Hx [(i & Hi & E)|Hnone].
    + left. exists i. split; [lia|exact E].
    + destruct (Z.eq_dec (f x) v) as [E|E].
      * left. exists x. split; [lia|exact E].
      * right. intros i Hi. destruct (Z.eq_dec i x) as [->|]; [exact E|apply Hnone; lia].
Qed.

Lemma pigeonhole (M : Z) :
  0 <= M ->
  forall f : Z -> Z,
    (forall i, 0 <= i <= M -> 0 <= f i < M) ->
    exists i j, 0 <= i < j /\ j <= M /\ f i = f j.
Proof.
  intros HM. pattern M. apply natlike_ind; [| |exact HM].
  - intros f Hf. specialize (Hf 0). lia.
  - intros x Hx IH f Hf.
    destruct (bounded_search f (f (Z.succ x)) (Z.succ x)) as [(i & Hi & E)|Hnone]; [lia| |].
    + exists i, (Z.succ x). split; [lia|]. split; [lia|exact E].
    + set (v := f (Z.succ x)) in *.
      assert (Hv : 0 <= v < Z.succ x) by (apply Hf; lia).
      destruct (IH (fun i => if f i <? v then f i else f i - 1)) as (i & j & Hij & Hj & E).
      * intros i Hi. cbv beta.
        assert (0 <= f i < Z.succ x) by (apply Hf; lia).
        assert (f i <> v) by (apply Hnone; lia).
        destruct (Z.ltb_spec (f i) v); lia.
      * exists i, j. split; [lia|]. split; [lia|].
        assert (f i <> v) by (apply Hnone; lia).
        assert (f j <> v) by (apply Hnone; lia).
        cbv beta in E.
        destruct (Z.ltb_spec (f i) v), (Z.ltb_spec (f j) v); lia.
Qed.

Lemma binary_digits_nonempty (p : positive) : binary_digits p <> "".
Proof. destruct p; discriminate. Qed.

Lemma binary_digits_injective (p q : positive) :
  binary_digits p = binary_digits q -> p = q.
Proof.
  revert q. induction p as [p IH|p IH|]; intros [q|q|] H; cbn in H;
    try discriminate; try reflexivity.
  - injection H as H. f_equal. now apply IH.
  - injection H as H. now apply binary_digits_nonempty in H.
  - injection H as H. f_equal. now apply IH.
  - injection H as H. symmetry in H. now apply binary_digits_nonempty in H.
Qed.

Lemma binary_numeral_injective (i j : Z) :
  0 <= i -> 0 <= j -> binary_numeral i = binary_numeral j -> i = j.
Proof.
  intros Hi Hj H. destruct i as [|p|p], j as [|q|q]; try lia; cbn in H.
  - symmetry in H. now apply binary_digits_nonempty in H.
  - now apply binary_digits_nonempty in H.
  - f_equal. now apply binary_digits_injective.
Qed.

(** C7, as amended: the checksum is a function of the four fields [id],
    [name], [version] and [description] alone, so equal fields give equal
    checksums; two migrations hash the same serialized content exactly when
    these four fields are equal, so a change of description alone, even
    by white space, changes the content that is hashed; and the checksums
    of two migrations can agree only if the fields agree or SHA-256 collides
    on the two contents. *)
Theorem generateChecksum_deterministic (m1 m2 : Migration) :
  let same_fields :=
    meta_id (meta m1) = meta_id (meta m2) /\
    meta_name (meta m1) = meta_name (meta m2) /\
    meta_version (meta m1) = meta_version (meta m2) /\
    meta_description (meta m1) = meta_description (meta m2) in
  (same_fields -> generateChecksum m1 = generateChecksum m2) /\
  (checksum_content m1 = checksum_content m2 <-> same_fields) /\
  (generateChecksum m1 = generateChecksum m2 ->
   same_fields \/
   (checksum_content m1 <> checksum_content m2 /\
    SHA256.hexdigest (checksum_content m1) = SHA256.hexdigest (checksum_content m2))).
Proof.
  cbv zeta.
  assert (Hsame : meta_id (meta m1) = meta_id (meta m2) /\
                  meta_name (meta m1) = meta_name (meta m2) /\
                  meta_version (meta m1) = meta_version (meta m2) /\
                  meta_description (meta m1) = meta_description (meta m2) ->
                  checksum_content m1 = checksum_content m2).
  { intros (Hi & Hn & Hv & Hd). unfold checksum_content. now rewrite Hi, Hn, Hv, Hd. }
  split; [|split].
  - intros H. rewrite !generateChecksum_content. f_equal. now apply Hsame.
  - split; [apply checksum_content_injective|exact Hsame].
  - intros H. rewrite !generateChecksum_content in H.
    destruct (string_dec (checksum_content m1) (checksum_content m2)) as [E|E].
    + left. now apply checksum_content_injective.
    + right. split; assumption.
Qed.

Lemma generateChecksum_deterministic_witness :
  let m1 := StrategyManagementMigration in
  let m2 := described (meta_description (meta StrategyManagementMigration) +:+ " ") in
  generateChecksum m1
    = generateChecksum (described (meta_description (meta StrategyManagementMigration))) /\
  checksum_content m1 <> checksum_content m2 /\
  generateChecksum m1 <> generateChecksum m2.
Proof.
  intros m1 m2. split; [|split].
  - apply (generateChecksum_deterministic m1). repeat split.
  - intros H. apply (generateChecksum_deterministic m1 m2) in H.
    destruct H as (_ & _ & _ & H). vm_compute in H. discriminate.
  - vm_compute. discriminate.
Defined.

(** C7 as stated fails: a digest has 256 bits, so among the migrations that
    differ from the first unit of the repository only by a description
    that is one of the 2^256 + 1 shortest binary numerals, two have the same
    checksum. *)
Lemma generateChecksum_collision_counterexample :
  exists d1 d2 : string,
    d1 <> d2 /\
    generateChecksum (described d1) = generateChecksum (described d2).
Proof.
  destruct (pigeonhole (2 ^ 256)
              ltac:(apply Z.pow_nonneg; lia)
              (fun i => SHA256.digest
                          (SHA256.bytes_of_string
                             (checksum_content (described (binary_numeral i))))))
    as (i & j & Hij & Hj & E).
  - intros i Hi. apply digest_bound.
  - exists (binary_numeral i), (binary_numeral j). split.
    + intros H. apply binary_numeral_injective in H; lia.
    + rewrite !generateChecksum_content. unfold SHA256.hexdigest.
      cbv beta in E. now rewrite E.
Qed.

(** * Further properties of the code *)

(** ** The comparator as an ordering *)

Lemma first_difference_unique (f g : nat -> Z) (k k' : nat) :
  (forall j, (j < k)%nat -> f j = g j) -> f k <> g k ->
  (forall j, (j < k')%nat -> f j = g j) -> f k' <> g k' ->
  k = k'.
Proof.
  intros P N P' N'. destruct (lt_eq_lt_dec k k') as [[H|H]|H]; auto.
  - elim N. now apply P'.
  - elim N'. now apply P.
Qed.

Lemma compareVersions_segments (a a' b : string) :
  (forall i, code_segment a i = code_segment a' i) ->
  compareVersions a b = compareVersions a' b.
Proof.
  intros H.
  destruct (compareVersions_cases a b) as [[E ->]|(k & P & N & ->)],
           (compareVersions_cases a' b) as [[E' ->]|(k' & P' & N' & ->)].
  - reflexivity.
  - elim N'. now rewrite <- H.
  - elim N. now rewrite H.
  - assert (k = k') as <-.
    { apply (first_difference_unique (code_segment a) (code_segment b)); auto.
      - intros j Hj. rewrite H. auto.
      - now rewrite H. }
    now rewrite H.
Qed.

Lemma compareVersions_antisym (x y : string) :
  compareVersions y x = - compareVersions x y.
Proof.
  destruct (compareVersions_cases x y) as [[E ->]|(k & P & N & ->)],
           (compareVersions_cases y x) as [[E' ->]|(k' & P' & N' & ->)].
  - reflexivity.
  - elim N'. now rewrite E.
  - elim N. now rewrite E'.
  - assert (k = k') as <-.
    { apply (first_difference_unique (code_segment x) (code_segment y)); auto.
      intros j Hj. symmetry. auto. }
    lia.
Qed.

(** X1: the comparator is a consistent ordering of numeric version
    strings: a version ties with itself, swapping the arguments negates the
    result, and both "not later than" and "ties with" are transitive. *)
Theorem compareVersions_consistent (a b c : string) :
  numeric_version a = true ->
  numeric_version b = true ->
  numeric_version c = true ->
  compareVersions a a = 0 /\
  compareVersions b a = - compareVersions a b /\
  (compareVersions a b <= 0 -> compareVersions b c <= 0 -> compareVersions a c <= 0) /\
  (compareVersions a b = 0 -> compareVersions b c = 0 -> compareVersions a c = 0).
Proof.
  intros _ _ _. pose proof compareVersions_antisym as Hanti.
  split; [|split; [apply Hanti|split]].
  - specialize (Hanti a a). lia.
  - apply compareVersions_trans.
  - intros H1 H2.
    assert (compareVersions a c <= 0) by (apply (compareVersions_trans a b c); lia).
    assert (compareVersions c a <= 0).
    { apply (compareVersions_trans c b a).
      - rewrite (Hanti b c). lia.
      - rewrite (Hanti a b). lia. }
    rewrite (Hanti a c) in *. lia.
Qed.

Lemma compareVersions_consistent_witness :
  compareVersions "1.9.9" "1.9.9" = 0 /\
  compareVersions "1.10" "1.9.9" = - compareVersions "1.9.9" "1.10" /\
  (compareVersions "1.9.9" "1.10" <= 0 -> compareVersions "1.10" "2.0" <= 0 ->
   compareVersions "1.9.9" "2.0" <= 0) /\
  (compareVersions "1.9.9" "1.10" = 0 -> compareVersions "1.10" "2.0" = 0 ->
   compareVersions "1.9.9" "2.0" = 0).
Proof.
  apply (compareVersions_consistent "1.9.9" "1.10" "2.0"); reflexivity.
Defined.

Lemma split_nonempty (sep : ascii) (s : string) : JS.split sep s <> [].
Proof.
  destruct s as [|c s]; cbn; [discriminate|].
  destruct (Ascii.eqb c sep); [discriminate|]. destruct (JS.split sep s); discriminate.
Qed.

Lemma split_append_zero (a : string) :
  JS.split "." (a +:+ ".0") = JS.split "." a ++ ["0"].
Proof.
  induction a as [|c a IH].
  - reflexivity.
  - change (String c a +:+ ".0") with (String c (a +:+ ".0")). cbn [JS.split].
    rewrite IH. destruct (Ascii.eqb c "."); [reflexivity|].
    destruct (JS.split "." a) eqn:E; [|reflexivity].
    now apply split_nonempty in E.
Qed.

Lemma code_segment_append_zero (a : string) (i : nat) :
  code_segment (a +:+ ".0") i = code_segment a i.
Proof.
  unfold code_segment. rewrite split_append_zero, map_app. cbn [map].
  set (l := map JS.Number (JS.split "." a)).
  destruct (Nat.lt_ge_cases i (length l)) as [H|H].
  - now rewrite lookup_app_l.
  - rewrite lookup_app_r by exact H. rewrite (lookup_ge_None_2 l) by exact H.
    destruct (i - length l)%nat; reflexivity.
Qed.

(** X2: appending the segment [.0] to a numeric version changes no
    comparison with a numeric version, on either side, and the longer
    version ties with the shorter one. *)
Theorem compareVersions_trailing_zero (a b : string) :
  numeric_version a = true ->
  numeric_version b = true ->
  compareVersions (a +:+ ".0") b = compareVersions a b /\
  compareVersions b (a +:+ ".0") = compareVersions b a /\
  compareVersions (a +:+ ".0") a = 0.
Proof.
  intros _ _.
  assert (H1 : forall x, compareVersions (a +:+ ".0") x = compareVersions a x).
  { intros x. apply compareVersions_segments, code_segment_append_zero. }
  split; [apply H1|]. split.
  - rewrite (compareVersions_antisym (a +:+ ".0") b), (compareVersions_antisym a b).
    now rewrite H1.
  - rewrite H1. pose proof (compareVersions_antisym a a). lia.
Qed.

Lemma compareVersions_trailing_zero_witness :
  compareVersions "1.2.0" "1.10" = compareVersions "1.2" "1.10" /\
  compareVersions "1.10" "1.2.0" = compareVersions "1.10" "1.2" /\
  compareVersions "1.2.0" "1.2" = 0.
Proof.
  apply (compareVersions_trailing_zero "1.2" "1.10"); reflexivity.
Defined.

(** ** The client of a batch *)




(** ** The ledger table and its rows *)

(** X4: after a [validate()] that logged no error the ledger table
    exists, so a following [validate()] of any unit leaves the database as
    it is and does not send the statement that creates the table. *)
Theorem validate_creates_ledger_once (this other : Migration) (s : state) :
  exists b s1 b' s2,
    validate this s = (Resolved b, s1) /\
    validate other s1 = (Resolved b', s2) /\
    (error_count (trace s1) = error_count (trace s) ->
       db s2 = db s1 /\
       ~ In (Query SqlCreateLedger) (drop (length (trace s1)) (trace s2))).
Proof.
  destruct (validate_spec this s) as (b & d1 & fs1 & delta1 & E1 & _ & _ & _ & _ & Hok & _).
  set (s1 := State (migrations s) d1 (snapshot s) fs1
                   (trace s ++ Invoked Validate this :: delta1)) in *.
  destruct (validate_spec other s1) as (b' & d2 & fs2 & delta2 & E2 & _ & Hsch & Hled & Hcreate & _).
  exists b, s1, b'. eexists. split; [exact E1|]. split; [exact E2|].
  intros Hcount. subst s1. cbn [trace db] in *.
  rewrite error_count_app in Hcount. cbn in Hcount.
  assert (Hzero : error_count delta1 = 0%nat) by lia.
  destruct (Hok Hzero) as (Hd1 & _).
  split.
  - destruct d1 as [sch1 led1], d2 as [sch2 led2]. cbn in *.
    destruct Hled as [->|[Hnone _]]; [now subst|congruence].
  - rewrite drop_app_length. intros [H|H]; [discriminate|].
    apply Hcreate in H. cbn in H. congruence.
Qed.

(** X5: [recordMigration] never overwrites: when the ledger already holds
    a row under the unit's id, or the table is missing, it rejects with the
    error of the [INSERT] and the database is unchanged. *)
Theorem recordMigration_never_overwrites (this : Migration) (checksum : string) (s : state) :
  recorded (meta_id (meta this)) (db s) \/ ledger (db s) = None ->
  exists s',
    recordMigration this checksum s =
      (Rejected (DatabaseError (SqlInsert (meta_id (meta this)) (ledger_row this checksum))),
       s') /\
    db s' = db s.
Proof.
  intros H.
  destruct (recordMigration_spec this checksum s) as (r & d' & E & Hcases).
  cbv zeta in *.
  destruct Hcases as [[-> ->]|(_ & _ & rows & Hrows & Hnone & _)].
  - eexists. split; [exact E|reflexivity].
  - exfalso. destruct H as [(rows' & Hrows' & Hsome)|H]; [|congruence].
    rewrite Hrows in Hrows'. injection Hrows' as <-.
    rewrite Hnone in Hsome. now destruct Hsome.
Qed.

Lemma recordMigration_never_overwrites_witness :
  exists s',
    recordMigration LaterMigration "checksum-4"
      (initial_state [LaterMigration] empty_database) =
      (Rejected (DatabaseError (SqlInsert (meta_id (meta LaterMigration))
                                          (ledger_row LaterMigration "checksum-4"))), s') /\
    db s' = db (initial_state [LaterMigration] empty_database).
Proof.
  apply (recordMigration_never_overwrites LaterMigration "checksum-4"
           (initial_state [LaterMigration] empty_database)).
  right. reflexivity.
Defined.

(** X6: a [recordMigration] that resolves followed by a
    [removeMigrationRecord] that resolves gives back the database as it
    was: the unit is recorded in between and unrecorded at the end. *)
Theorem record_then_remove (this : Migration) (checksum : string) (s s1 s2 : state) :
  recordMigration this checksum s = (Resolved tt, s1) ->
  removeMigrationRecord this s1 = (Resolved tt, s2) ->
  db s2 = db s /\
  ~ recorded (meta_id (meta this)) (db s2) /\
  recorded (meta_id (meta this)) (db s1).
Proof.
  intros E1 E2.
  destruct (recordMigration_spec this checksum s) as (r & d1 & E & Hcases).
  cbv zeta in *. rewrite E1 in E. injection E as <- ->.
  destruct Hcases as [[? _]|(_ & Hsch1 & rows & Hrows & Hnone & Hled1)]; [discriminate|].
  destruct (removeMigrationRecord_spec this
              (State (migrations s) d1 (snapshot s) (tl (faults s))
                 (trace s ++ [Invoked RecordMigration this;
                              Query (SqlInsert (meta_id (meta this))
                                               (ledger_row this checksum))])))
    as (r & d2 & E & Hcases).
  cbv zeta in *. rewrite E2 in E. injection E as <- ->.
  destruct Hcases as [[? _]|(_ & Hsch2 & rows1 & Hrows1 & Hled2)]; [discriminate|].
  cbn [db] in *. rewrite Hled1 in Hrows1. injection Hrows1 as <-.
  rewrite delete_insert_id in Hled2 by exact Hnone.
  repeat apply conj.
  - destruct (db s) as [sch led], d2 as [sch2 led2]. cbn in *. congruence.
  - intros (rows' & Hrows' & Hsome). rewrite Hled2 in Hrows'. injection Hrows' as <-.
    rewrite Hnone in Hsome. now destruct Hsome.
  - exists (<[meta_id (meta this) := ledger_row this checksum]> rows).
    split; [exact Hled1|]. rewrite lookup_insert_eq. eauto.
Qed.

Lemma record_then_remove_witness :
  let s := initial_state [LaterMigration] {| schema := []; ledger := Some ∅ |} in
  let s1 := snd (recordMigration LaterMigration "checksum-4" s) in
  let s2 := snd (removeMigrationRecord LaterMigration s1) in
  db s2 = db s /\
  ~ recorded (meta_id (meta LaterMigration)) (db s2) /\
  recorded (meta_id (meta LaterMigration)) (db s1).
Proof.
  intros s s1 s2.
  apply (record_then_remove LaterMigration "checksum-4" s s1 s2); vm_compute; reflexivity.
Defined.

(** ** What [applyMigrations] applies *)

Lemma calls_Up_cases (m : Migration) (delta : list event) :
  (invocations delta = [(Validate, m)] -> calls Up delta = []) /\
  (invocations delta = [(Validate, m); (Up, m)] -> calls Up delta = [m]) /\
  (invocations delta = [(Validate, m); (Up, m); (RecordMigration, m)] ->
   calls Up delta = [m]).
Proof.
  rewrite calls_invocations. repeat apply conj; intros ->; reflexivity.
Qed.

Lemma for_each_apply_once (ms : list Migration) (s : state) :
  exists r s' delta,
    for_each apply_one ms s = (r, s') /\
    trace s' = trace s ++ delta /\
    (forall id, recorded id (db s) -> recorded id (db s')) /\
    Forall (fun u => ~ recorded (meta_id (meta u)) (db s)) (calls Up delta) /\
    NoDup (map (fun u => meta_id (meta u)) (calls Up delta)).
Proof.
  revert s. induction ms as [|m ms IH]; intros s.
  - exists (Resolved tt), s, []. cbn. rewrite app_nil_r.
    repeat apply conj; auto. constructor.
  - rewrite for_each_cons.
    destruct (apply_one_spec m s) as (r1 & s1 & d1 & Hrun & Ht1 & Hm1 & Hg1 & Hcases).
    cbv zeta in Hcases. rewrite Hrun.
    destruct (calls_Up_cases m d1) as (Hc1 & Hc2 & Hc3).
    destruct Hcases as [ (-> & Hi & Hsch & Hled & Hrec)
                       | [ (-> & Hi & Hz & Hsch & Hnew & Hled)
                       | [ (q & -> & Hq & Hi & Hlast & Hsch & Hled & Hnot)
                         | (e & -> & Hi & Hlast & Hsch & Hled & Hnot) ]]].
    + destruct (IH s1) as (r & s' & d & Hrun' & Ht & Hg & Hall & Hnd).
      exists r, s', (d1 ++ d). rewrite Hrun'.
      split; [reflexivity|]. split; [now rewrite Ht, Ht1, app_assoc|].
      split; [auto|]. rewrite calls_app, (Hc1 Hi). cbn [app].
      split; [|exact Hnd].
      eapply Forall_impl; [exact Hall|]. cbn. intros u Hu Hrecu. apply Hu, Hg1, Hrecu.
    + destruct (IH s1) as (r & s' & d & Hrun' & Ht & Hg & Hall & Hnd).
      exists r, s', (d1 ++ d). rewrite Hrun'.
      split; [reflexivity|]. split; [now rewrite Ht, Ht1, app_assoc|].
      split; [auto|]. rewrite calls_app, (Hc3 Hi). cbn [app map].
      split.
      * constructor; [exact Hnew|].
        eapply Forall_impl; [exact Hall|]. cbn. intros u Hu Hrecu. apply Hu, Hg1, Hrecu.
      * apply NoDup_cons_2; [|exact Hnd].
        intros Hin. apply list_elem_of_In, in_map_iff in Hin as (u & Hid & Hu).
        apply list_elem_of_In in Hu.
        rewrite Forall_forall in Hall. apply (Hall u Hu).
        rewrite Hid. eexists. split; [exact Hled|]. rewrite lookup_insert_eq. eauto.
    + exists (Rejected q), s1, d1.
      split; [reflexivity|]. split; [exact Ht1|]. split; [exact Hg1|].
      rewrite (Hc2 Hi). split.
      * constructor; [|constructor]. intros H. apply Hnot, Hg1, H.
      * apply NoDup_singleton.
    + exists (Rejected e), s1, d1.
      split; [reflexivity|]. split; [exact Ht1|]. split; [exact Hg1|].
      rewrite (Hc3 Hi). split.
      * constructor; [|constructor]. intros H. apply Hnot, Hg1, H.
      * apply NoDup_singleton.
Qed.

(** X7: whatever the outcome of [applyMigrations], [up()] is entered only
    on units that had no ledger row when the call began, and on at most one
    unit per id, also when the array holds a unit twice. *)
Theorem applyMigrations_applies_pending_once (s : state) :
  exists r s' delta,
    applyMigrations s = (r, s') /\
    trace s' = trace s ++ delta /\
    Forall (fun u => ~ recorded (meta_id (meta u)) (db s)) (calls Up delta) /\
    NoDup (map (fun u => meta_id (meta u)) (calls Up delta)).
Proof.
  rewrite applyMigrations_unfold.
  destruct (for_each_apply_once (migrations s) s) as (r & s' & delta & H1 & H2 & _ & H3 & H4).
  exists r, s', delta. auto.
Qed.

(** X8: when the database raises no error, [applyMigrations] resolves
    without logging an error; [up()] is entered exactly on the pending
    units, in array order; the schema grows by their statements in that
    order; the ledger is the old one with their rows inserted; and the
    ledger table exists afterwards as soon as a unit is loaded. *)
Theorem applyMigrations_without_faults (s : state) :
  faults s = [] ->
  let rows := default ∅ (ledger (db s)) in
  let todo := pending rows (migrations s) in
  exists s' delta,
    applyMigrations s = (Resolved tt, s') /\
    trace s' = trace s ++ delta /\
    error_count delta = 0%nat /\
    calls Up delta = todo /\
    schema (db s') = schema (db s) ++ concat (map up_queries todo) /\
    default ∅ (ledger (db s')) = record_all rows todo /\
    (migrations s <> [] -> ledger (db s') <> None) /\
    faults s' = [].
Proof.
  intros Hf. cbv zeta. rewrite applyMigrations_unfold.
  destruct (for_each_without_faults (migrations s) s Hf)
    as (s' & delta & H1 & H2 & H3 & H4 & H5 & H6 & H7 & H8 & H9).
  exists s', delta. repeat apply conj; auto.
Qed.

Lemma applyMigrations_without_faults_witness :
  let s := initial_state [SameVersionMigration; LaterMigration; SameVersionMigration]
             empty_database in
  let todo := pending ∅ (migrations s) in
  exists s' delta,
    applyMigrations s = (Resolved tt, s') /\
    trace s' = trace s ++ delta /\
    error_count delta = 0%nat /\
    calls Up delta = todo /\
    schema (db s') = schema (db s) ++ concat (map up_queries todo) /\
    default ∅ (ledger (db s')) = record_all ∅ todo /\
    (migrations s <> [] -> ledger (db s') <> None) /\
    faults s' = [].
Proof.
  intros s todo. apply (applyMigrations_without_faults s). reflexivity.
Defined.

(** ** A unit applied but not recorded *)

Lemma pending_head (rows : gmap string LedgerRow) (m : Migration) (rest : list Migration) :
  rows !! meta_id (meta m) = None ->
  exists tail, pending rows (m :: rest) = m :: tail.
Proof. intros H. cbn. rewrite H. eauto. Qed.

(** X9: when [applyMigrations] rejects in [recordMigration] of the first
    unit, after its [up()] went through, the statements of that unit stay
    in the schema while the unit is not recorded; a following
    [applyMigrations] on which the database raises no error enters [up()]
    on that unit again, so that its statements run a second time. *)
Theorem applyMigrations_unrecorded_is_applied_again
    (m : Migration) (rest : list Migration) (s s' : state) (e : error) :
  migrations s = m :: rest ->
  applyMigrations s = (Rejected e, s') ->
  invocations (drop (length (trace s)) (trace s'))
    = [(Validate, m); (Up, m); (RecordMigration, m)] ->
  schema (db s') = schema (db s) ++ up_queries m /\
  ~ recorded (meta_id (meta m)) (db s') /\
  exists s'' delta tail,
    applyMigrations (set_faults [] s') = (Resolved tt, s'') /\
    trace s'' = trace s' ++ delta /\
    calls Up delta = m :: tail /\
    schema (db s'')
      = schema (db s) ++ up_queries m ++ up_queries m ++ concat (map up_queries tail).
Proof.
  intros Hms Hrun Hinv. rewrite applyMigrations_unfold, Hms, for_each_cons in Hrun.
  destruct (apply_one_spec m s) as (r1 & s1 & d1 & Hone & Ht1 & Hm1 & Hg1 & Hcases).
  cbv zeta in Hcases. rewrite Hone in Hrun.
  assert (Hfirst : r1 = Rejected e /\ s1 = s' /\
                   schema (db s') = schema (db s) ++ up_queries m /\
                   ledger (db s') = Some (default ∅ (ledger (db s))) /\
                   ~ recorded (meta_id (meta m)) (db s')).
  { destruct (for_each_apply_spec rest s1)
      as (r & s2 & d & n & Hrest & Ht & _ & _ & Hval & _ & Hpos & _).
    assert (Hcont : r1 = Resolved tt -> invocations d1 ++ invocations d
                                        = [(Validate, m); (Up, m); (RecordMigration, m)]).
    { intros ->. rewrite Hrest in Hrun. injection Hrun as -> ->.
      rewrite Ht, Ht1, <- app_assoc, drop_app_length in Hinv.
      now rewrite invocations_app in Hinv. }
    assert (Hstop : r1 = Resolved tt -> calls Validate d <> []).
    { intros ->. rewrite Hrest in Hrun. injection Hrun as -> ->.
      specialize (Hpos e eq_refl). rewrite Hval.
      destruct rest as [|u rest]; [discriminate|]. destruct n; [lia|discriminate]. }
    destruct Hcases as [ (-> & Hi & Hsch & Hled & Hrec)
                       | [ (-> & Hi & Hz & Hsch & Hnew & Hled)
                       | [ (q & -> & Hq & Hi & Hlast & Hsch & Hled & Hnot)
                         | (e' & -> & Hi & Hlast & Hsch & Hled & Hnot) ]]].
    - exfalso. specialize (Hcont eq_refl). rewrite Hi in Hcont. injection Hcont as Hd.
      apply (Hstop eq_refl). now rewrite calls_invocations, Hd.
    - exfalso. specialize (Hcont eq_refl). rewrite Hi in Hcont.
      apply (Hstop eq_refl). rewrite calls_invocations.
      injection Hcont as Hd. now rewrite Hd.
    - exfalso. injection Hrun as <- ->.
      rewrite Ht1, drop_app_length, Hi in Hinv. discriminate.
    - injection Hrun as -> ->. auto. }
  destruct Hfirst as (_ & -> & Hsch & Hled & Hnot).
  split; [exact Hsch|]. split; [exact Hnot|].
  clear Hrun Hcases Hone. rewrite applyMigrations_unfold.
  destruct (for_each_without_faults (migrations (set_faults [] s')) (set_faults [] s') eq_refl)
    as (s'' & delta & H1 & _ & _ & H4 & _ & H6 & H7 & _).
  cbv zeta in *. cbn [set_faults db trace migrations] in *.
  rewrite Hm1, Hms in *.
  destruct (pending_head (default ∅ (ledger (db s'))) m rest) as [tail Htail].
  { rewrite Hled. cbn [default].
    destruct (default ∅ (ledger (db s)) !! meta_id (meta m)) eqn:E; [|exact E].
    exfalso. apply Hnot. eexists. split; [exact Hled|]. rewrite E. eauto. }
  rewrite Htail in *. exists s'', delta, tail.
  split; [exact H1|]. split; [exact H4|]. split; [exact H6|].
  rewrite H7, Hsch. cbn [map concat]. now rewrite <- !app_assoc.
Qed.

Lemma applyMigrations_unrecorded_is_applied_again_witness :
  let m := LaterMigration in
  let s := State [m] empty_database None (replicate 7 false ++ [true]) [] in
  let s' := snd (applyMigrations s) in
  schema (db s') = schema (db s) ++ up_queries m /\
  ~ recorded (meta_id (meta m)) (db s') /\
  exists s'' delta tail,
    applyMigrations (set_faults [] s') = (Resolved tt, s'') /\
    trace s'' = trace s' ++ delta /\
    calls Up delta = m :: tail /\
    schema (db s'')
      = schema (db s) ++ up_queries m ++ up_queries m ++ concat (map up_queries tail).
Proof.
  intros m s s'.
  apply (applyMigrations_unrecorded_is_applied_again m [] s s'
           (DatabaseError (SqlInsert (meta_id (meta m))
                                     (ledger_row m (generateChecksum m))))).
  - reflexivity.
  - vm_compute. reflexivity.
  - vm_compute. reflexivity.
Defined.

(** ** Rollback when the database raises no error *)

(** X10: when the database raises no fault, [rollbackMigration] of a
    loaded version always commits the statements of [down()]; it then
    resolves with the row under the unit's id deleted, whether or not there
    was one, if the ledger table exists, and rejects with the error of the
    [DELETE] if the table is missing. *)
Theorem rollbackMigration_without_faults (version : string) (s : state) (m : Migration) :
  JS.find (has_version version) (migrations s) = Some m ->
  faults s = [] ->
  let id := meta_id (meta m) in
  exists s',
    schema (db s') = schema (db s) ++ down_queries m /\
    match ledger (db s) with
    | Some rows =>
        rollbackMigration version s = (Resolved tt, s') /\
        ledger (db s') = Some (delete id rows)
    | None =>
        rollbackMigration version s = (Rejected (DatabaseError (SqlDelete id)), s') /\
        ledger (db s') = None
    end.
Proof.
  intros Hfind Hf. cbv zeta. rewrite (rollbackMigration_found _ _ _ Hfind). cbv zeta.
  rewrite down_spec. destruct s as [ms [sch led] snap fs tr]. cbn [faults] in Hf. subst fs.
  cbn [faults db migrations trace record_event snapshot].
  rewrite batch_end_of_nil. cbv zeta.
  unfold batch_outcome, batch_database. rewrite drop_nil.
  cbn [schema ledger].
  destruct led as [rows|]; run_async; eexists; (split; [|split; [reflexivity|]]);
    reflexivity.
Qed.

Lemma rollbackMigration_without_faults_witness :
  let s := initial_state [LaterMigration] empty_database in
  exists s',
    schema (db s') = schema (db s) ++ down_queries LaterMigration /\
    rollbackMigration "1.1.0" s
      = (Rejected (DatabaseError (SqlDelete (meta_id (meta LaterMigration)))), s') /\
    ledger (db s') = None.
Proof.
  intros s. apply (rollbackMigration_without_faults "1.1.0" s LaterMigration); reflexivity.
Defined.

(** ** Loading that fails, loading twice *)

Lemma import_all_rejected (before after : list (string * option Migration)) (file : string)
    (s : state) :
  Forall (fun f => is_migration_file (fst f) = true -> snd f <> None) before ->
  is_migration_file file = true ->
  import_all (List.filter (fun f => is_migration_file (fst f))
                          (before ++ (file, None) :: after)) s
  = (Rejected (ImportError file), set_migrations (migrations s ++ discovered before) s).
Proof.
  intros Hall Hfile. revert s.
  induction Hall as [|[f o] before Hf Hall IH]; intros s; cbn [app List.filter fst].
  - rewrite Hfile. cbn. destruct s. unfold set_migrations. cbn. now rewrite app_nil_r.
  - cbn [fst snd] in Hf. destruct (is_migration_file f) eqn:E.
    + destruct o as [u|]; [|now elim Hf]. cbn [import_all discovered]. rewrite E.
      unfold bind. rewrite IH. destruct s. unfold set_migrations. cbn.
      now rewrite <- app_assoc.
    + rewrite IH. destruct o; cbn [discovered]; [rewrite E|]; reflexivity.
Qed.

(** X11: when a migration file fails to import, [loadMigrations] logs the
    error and rejects with it; the units constructed from the files before
    it stay appended to the array, unsorted, and files that are neither
    [.ts] nor [.js] are never imported. *)
Theorem loadMigrations_failure_keeps_partial_load
    (before after : list (string * option Migration)) (file : string) (s : state) :
  Forall (fun f => is_migration_file (fst f) = true -> snd f <> None) before ->
  is_migration_file file = true ->
  let e := ImportError file in
  loadMigrations (Some (before ++ (file, None) :: after)) s
  = (Rejected e,
     State (migrations s ++ discovered before) (db s) (snapshot s) (faults s)
           (trace s ++ [ConsoleError "Failed to load migrations:" e])).
Proof.
  intros Hall Hfile. cbv zeta. unfold loadMigrations, try_catch, bind at 1.
  rewrite (import_all_rejected _ _ _ _ Hall Hfile). reflexivity.
Qed.

Lemma loadMigrations_failure_keeps_partial_load_witness :
  let before := [ ("002_query_optimization.ts", Some QueryOptimizationMigration);
                  ("README.md", None) ] in
  let after := [ ("001_strategy_management.ts", Some StrategyManagementMigration) ] in
  let s := initial_state [LaterMigration] empty_database in
  let e := ImportError "003_broken.js" in
  loadMigrations (Some (before ++ ("003_broken.js", None) :: after)) s
  = (Rejected e,
     State (migrations s ++ discovered before) (db s) (snapshot s) (faults s)
           (trace s ++ [ConsoleError "Failed to load migrations:" e])).
Proof.
  intros before after s e.
  apply (loadMigrations_failure_keeps_partial_load before after "003_broken.js" s).
  - repeat constructor; cbn; intros H; discriminate.
  - reflexivity.
Defined.

(** X12: [loadMigrations] does not reset the array: with units whose
    versions are all numeric, after two calls that resolve on the same
    directory every discovered unit is held twice, the array still being
    sorted by version; the database and the console are untouched. *)
Theorem loadMigrations_twice_duplicates
    (files : list (string * option Migration)) (s s1 s2 : state) :
  Forall (fun m => numeric_version (meta_version (meta m)) = true)
         (migrations s ++ discovered files) ->
  loadMigrations (Some files) s = (Resolved tt, s1) ->
  loadMigrations (Some files) s1 = (Resolved tt, s2) ->
  Permutation (migrations s2) (migrations s ++ discovered files ++ discovered files) /\
  StronglySorted version_le (migrations s2) /\
  db s2 = db s /\ trace s2 = trace s.
Proof.
  intros _ H1 H2. apply loadMigrations_resolved in H1, H2. subst s2 s1.
  destruct s as [ms d snap fs tr]. cbn. repeat apply conj; auto.
  - rewrite sort_Permutation. rewrite sort_Permutation. now rewrite <- app_assoc.
  - apply sort_by_version_sorted.
Qed.

Lemma loadMigrations_twice_duplicates_witness :
  let s := initial_state [] empty_database in
  let s1 := snd (loadMigrations (Some versions_listing) s) in
  let s2 := snd (loadMigrations (Some versions_listing) s1) in
  Permutation (migrations s2)
    (migrations s ++ discovered versions_listing ++ discovered versions_listing) /\
  StronglySorted version_le (migrations s2) /\
  db s2 = db s /\ trace s2 = trace s.
Proof.
  intros s s1 s2.
  apply (loadMigrations_twice_duplicates versions_listing s s1 s2).
  - repeat constructor.
  - vm_compute. reflexivity.
  - vm_compute. reflexivity.
Defined.

Ltac run_read :=
  unfold getCurrentVersion, getMigrationHistory, query_current_version, query_history,
    read_fails, console_error, bind, try_catch, ret, throw, emit, send, record_event,
    set_faults, set_db;
  cbn -[lookup insert delete empty select_latest_first String.eqb].

(** X13: [getCurrentVersion] never throws and never changes the database
    or the loaded units; it sends its one statement; when the database
    raises an error, in particular when the ledger table is missing, it
    logs the error and returns [null]; otherwise it logs nothing; and on an
    empty ledger it returns [null]. *)
Theorem getCurrentVersion_never_throws (applied_at : string -> Z) (s : state) :
  exists v s',
    getCurrentVersion applied_at s = (Resolved v, s') /\
    db s' = db s /\
    migrations s' = migrations s /\
    queries_sent (trace s') = queries_sent (trace s) ++ [SqlText current_version_statement] /\
    (read_fails s = true ->
       v = None /\
       trace s' = trace s ++ [Query (SqlText current_version_statement);
                              ConsoleError "Failed to get current version:"
                                (DatabaseError (SqlText current_version_statement))]) /\
    (read_fails s = false -> error_count (trace s') = error_count (trace s)) /\
    (ledger (db s) = Some ∅ -> v = None).
Proof.
  destruct s as [ms [sch [rows|]] snap fs tr]; destruct fs as [|[] fs]; run_read.
  all: do 2 eexists; (split; [reflexivity|]); cbn -[select_latest_first String.eqb].
  all: rewrite <- ?app_assoc, ?queries_sent_app, ?error_count_app;
    cbn -[select_latest_first String.eqb]; rewrite ?app_nil_r.
  all: repeat apply conj; auto; try discriminate; try lia.
  all: intros [= ->]; unfold select_latest_first; now rewrite map_to_list_empty.
Qed.

Lemma select_latest_first_sorted (applied_at : string -> Z) (rows : gmap string LedgerRow) :
  StronglySorted (no_later (latest_first applied_at)) (select_latest_first applied_at rows).
Proof.
  apply sort_StronglySorted; unfold latest_first; intros; lia.
Qed.

Lemma select_latest_first_rows (applied_at : string -> Z) (rows : gmap string LedgerRow)
    (id : string) (row : LedgerRow) :
  In (id, row) (select_latest_first applied_at rows) <-> rows !! id = Some row.
Proof.
  rewrite <- elem_of_map_to_list, list_elem_of_In.
  split; apply Permutation_in;
    [apply sort_Permutation|symmetry; apply sort_Permutation].
Qed.

Lemma select_latest_first_head (applied_at : string -> Z) (rows : gmap string LedgerRow)
    (r : string * LedgerRow) (rest : list (string * LedgerRow)) :
  select_latest_first applied_at rows = r :: rest ->
  rows !! fst r = Some (snd r) /\
  forall id, is_Some (rows !! id) -> applied_at id <= applied_at (fst r).
Proof.
  intros E. split.
  - apply (select_latest_first_rows applied_at). rewrite E. destruct r. now left.
  - intros id [row Hrow]. apply (select_latest_first_rows applied_at) in Hrow.
    pose proof (select_latest_first_sorted applied_at rows) as Hs.
    rewrite E in Hrow, Hs. destruct Hrow as [->|Hin]; [cbn; lia|].
    apply StronglySorted_inv in Hs as [_ Hall].
    rewrite List.Forall_forall in Hall. specialize (Hall _ Hin).
    unfold no_later, latest_first in Hall. cbn in Hall. lia.
Qed.

(** X14: a version returned by [getCurrentVersion] is not empty and is
    the version of a ledger row applied last, that is, no row has a later
    [applied_at]; it need not be the highest version recorded. *)
Theorem getCurrentVersion_latest_applied
    (applied_at : string -> Z) (s s' : state) (version : string) :
  getCurrentVersion applied_at s = (Resolved (Some version), s') ->
  version <> EmptyString /\
  exists rows id row,
    ledger (db s) = Some rows /\
    rows !! id = Some row /\
    row_version row = version /\
    forall id', is_Some (rows !! id') -> applied_at id' <= applied_at id.
Proof.
  destruct s as [ms [sch [rows|]] snap fs tr]; destruct fs as [|[] fs]; run_read;
    try discriminate.
  all: destruct (select_latest_first applied_at rows) as [|[id row] rest] eqn:E;
    cbn -[String.eqb]; try discriminate.
  all: destruct (String.eqb_spec (row_version row) EmptyString) as [Hv|Hv];
    try discriminate.
  all: intros [= <- <-]; split; [exact Hv|].
  all: destruct (select_latest_first_head _ _ _ _ E) as [Hrow Hmax].
  all: exists rows, id, row; auto.
Qed.

Lemma getCurrentVersion_latest_applied_witness :
  let applied_at := fun id => if String.eqb id "001_strategy_management" then 2 else 1 in
  let s := initial_state [] {| schema := []; ledger := Some both_recorded |} in
  "1.0.0" <> EmptyString /\
  exists rows id row,
    ledger (db s) = Some rows /\
    rows !! id = Some row /\
    row_version row = "1.0.0" /\
    forall id', is_Some (rows !! id') -> applied_at id' <= applied_at id.
Proof.
  intros applied_at s.
  apply (getCurrentVersion_latest_applied applied_at s
           (snd (getCurrentVersion applied_at s)) "1.0.0").
  vm_compute. reflexivity.
Defined.

(** X15: [getMigrationHistory] never throws and never changes the
    database or the loaded units; its result is sorted by [applied_at],
    latest first; when the database raises an error it logs the error and
    returns the empty array; otherwise it logs nothing and returns exactly
    one entry per ledger row, with the columns of that row. *)
Theorem getMigrationHistory_never_throws (applied_at : string -> Z) (s : state) :
  exists history s',
    getMigrationHistory applied_at s = (Resolved history, s') /\
    db s' = db s /\
    migrations s' = migrations s /\
    StronglySorted (fun a b => history_applied_at b <= history_applied_at a) history /\
    (read_fails s = true ->
       history = [] /\
       trace s' = trace s ++ [Query (SqlText history_statement);
                              ConsoleError "Failed to get migration history:"
                                (DatabaseError (SqlText history_statement))]) /\
    (read_fails s = false ->
       error_count (trace s') = error_count (trace s) /\
       NoDup (map history_id history) /\
       forall rows, ledger (db s) = Some rows ->
         forall h, In h history <->
                   exists row, rows !! history_id h = Some row /\
                               h = history_row applied_at (history_id h, row)).
Proof.
  assert (Hsorted : forall rows,
             StronglySorted (fun a b => history_applied_at b <= history_applied_at a)
               (map (history_row applied_at) (select_latest_first applied_at rows))).
  { intros rows. pose proof (select_latest_first_sorted applied_at rows) as Hs.
    induction Hs as [|r l _ IH Hall]; cbn; constructor; auto.
    rewrite List.Forall_forall in *. intros h Hh.
    apply in_map_iff in Hh as (r' & <- & Hr'). specialize (Hall _ Hr').
    unfold no_later, latest_first in Hall. cbn. lia. }
  assert (Hrows : forall rows,
             NoDup (map history_id (map (history_row applied_at)
                                        (select_latest_first applied_at rows))) /\
             forall h, In h (map (history_row applied_at)
                                 (select_latest_first applied_at rows)) <->
                       exists row, rows !! history_id h = Some row /\
                                   h = history_row applied_at (history_id h, row)).
  { intros rows. split.
    - rewrite map_map. cbn.
      assert (P : Permutation (map fst (select_latest_first applied_at rows))
                              (map fst (map_to_list rows)))
        by apply Permutation_map, sort_Permutation.
      change (NoDup (map fst (select_latest_first applied_at rows))).
      rewrite P. apply (NoDup_fst_map_to_list rows).
    - intros h. rewrite in_map_iff. split.
      + intros ([id row] & <- & Hin). apply select_latest_first_rows in Hin.
        exists row. cbn. auto.
      + intros (row & Hrow & Hh). exists (history_id h, row).
        split; [now symmetry|]. now apply select_latest_first_rows. }
  destruct s as [ms [sch [rows|]] snap fs tr]; destruct fs as [|[] fs]; run_read.
  all: do 2 eexists; (split; [reflexivity|]); cbn -[select_latest_first].
  all: rewrite <- ?app_assoc, ?error_count_app; cbn -[select_latest_first];
    rewrite ?app_nil_r.
  all: repeat apply conj; auto; try discriminate; try lia; try constructor.
  all: try lia.
  all: split; [apply Hrows|intros rows' [= <-]; apply Hrows].
Qed.

Lemma split_until_separator (sep : ascii) (v rest : string) :
  ~ In sep (list_ascii_of_string v) ->
  JS.split sep (v +:+ String sep rest) = v :: JS.split sep rest /\
  JS.split sep v = [v].
Proof.
  induction v as [|c v IH]; intros Hno.
  - rewrite append_nil. cbn. now rewrite Ascii.eqb_refl.
  - rewrite append_cons. cbn [JS.split].
    destruct (Ascii.eqb_spec c sep) as [->|Hne]; [elim Hno; now left|].
    destruct IH as [-> ->]; [intros H; apply Hno; now right|]. auto.
Qed.

Lemma find_app_first {A : Type} (p : A -> bool) (before after : list A) (x : A) :
  Forall (fun a => p a = false) before -> p x = true ->
  JS.find p (before ++ x :: after) = Some x.
Proof.
  intros Hall Hx. induction Hall as [|a before Ha _ IH]; cbn.
  - now rewrite Hx.
  - now rewrite Ha.
Qed.

(** X16: the version the script reads from its arguments is taken from the
    first argument that starts with [--rollback=], and is the text between
    that [=] and the next [=], or the end of the argument. *)
Theorem rollbackVersion_between_separators
    (before after : list string) (version rest : string) :
  Forall (fun arg => startsWith arg "--rollback=" = false) before ->
  ~ In "="%char (list_ascii_of_string version) ->
  rest = EmptyString \/ (exists w, rest = String "=" w) ->
  rollbackVersion (before ++ ("--rollback=" +:+ version +:+ rest) :: after) = Some version.
Proof.
  intros Hbefore Hno Hrest. unfold rollbackVersion.
  rewrite (find_app_first _ before after); [|exact Hbefore|].
  - rewrite !append_cons, append_nil. cbn -[String.append].
    destruct (split_until_separator "=" version EmptyString Hno) as [H1 H2].
    destruct Hrest as [->|[w ->]].
    + assert (E : version +:+ EmptyString = version).
      { clear. induction version as [|c v IH]; [reflexivity|].
        now rewrite append_cons, IH. }
      rewrite E, H2. reflexivity.
    + destruct (split_until_separator "=" version w Hno) as [-> _]. reflexivity.
  - rewrite !append_cons, append_nil. reflexivity.
Qed.

Lemma rollbackVersion_between_separators_witness :
  rollbackVersion (["--verbose"] ++ ("--rollback=" +:+ "1.0.1" +:+ "=x") :: ["--rollback=2.0.0"])
  = Some "1.0.1".
Proof.
  apply (rollbackVersion_between_separators ["--verbose"] ["--rollback=2.0.0"] "1.0.1" "=x").
  - repeat constructor.
  - cbn. intros H. repeat (destruct H as [H|H]; [discriminate|]). exact H.
  - right. eexists. reflexivity.
Defined.

(** X17: the rollback branch of the script calls [rollbackMigration] on a
    Manager it has just constructed, without loading any unit: for every
    non-empty version it logs that the version was not found and exits
    with code 1, and it sends no statement and leaves the database as it
    is. *)
Theorem main_rollback_never_finds_the_version
    (applied_at : string -> Z) (date_string : Z -> string) (dir : directory)
    (args : list string) (version : string) (s : state) :
  rollbackVersion args = Some version ->
  version <> EmptyString ->
  let e := Error ("Migration version " +:+ version +:+ " not found") in
  main applied_at date_string dir args s
  = (Resolved (Some 1),
     State [] (db s) (snapshot s) (faults s)
           (trace s ++ [ConsoleLog ("Rolling back to version " +:+ version +:+ "...");
                        ConsoleError "Rollback failed:" e])).
Proof.
  intros Hargs Hne. cbv zeta. unfold main. rewrite Hargs.
  destruct (String.eqb_spec version EmptyString) as [E|_]; [contradiction|].
  cbn [negb]. unfold bind at 1, console_log at 1, emit at 1.
  unfold bind at 1, new_MigrationManager at 1. unfold try_catch, bind at 1.
  unfold rollbackMigration, bind at 1, get_migrations.
  cbn [migrations set_migrations record_event JS.find]. unfold throw.
  unfold bind, console_error, emit, process_exit, ret. cbn.
  unfold record_event, set_migrations. cbn. now rewrite <- app_assoc.
Qed.

Lemma main_rollback_never_finds_the_version_witness :
  let applied_at := fun _ : string => 0 in
  let date_string := fun _ : Z => "Thu Jan 01 1970" in
  let s := applied_state in
  let e := Error ("Migration version " +:+ "1.0.1" +:+ " not found") in
  main applied_at date_string (Some versions_listing) ["--rollback=1.0.1"] s
  = (Resolved (Some 1),
     State [] (db s) (snapshot s) (faults s)
           (trace s ++ [ConsoleLog ("Rolling back to version " +:+ "1.0.1" +:+ "...");
                        ConsoleError "Rollback failed:" e])).
Proof.
  intros applied_at date_string s e.
  apply (main_rollback_never_finds_the_version applied_at date_string
           (Some versions_listing) ["--rollback=1.0.1"] "1.0.1" s).
  - reflexivity.
  - discriminate.
Defined.

(** ** The forward run of the script *)

Lemma getCurrentVersion_frame (applied_at : string -> Z) (s : state) :
  exists v delta,
    getCurrentVersion applied_at s
    = (Resolved v,
       State (migrations s) (db s) (snapshot s) (tl (faults s)) (trace s ++ delta)) /\
    calls Up delta = [] /\
    (faults s = [] -> ledger (db s) <> None -> error_count delta = 0%nat) /\
    (ledger (db s) = None -> error_count delta = 1%nat).
Proof.
  destruct s as [ms [sch [rows|]] snap fs tr]; destruct fs as [|[] fs]; run_read.
  all: do 2 eexists; (split; [rewrite <- ?app_assoc; reflexivity|]).
  all: split; [reflexivity|]; split; intros; try discriminate; try congruence;
    reflexivity.
Qed.

Lemma getMigrationHistory_frame (applied_at : string -> Z) (s : state) :
  exists h delta,
    getMigrationHistory applied_at s
    = (Resolved h,
       State (migrations s) (db s) (snapshot s) (tl (faults s)) (trace s ++ delta)) /\
    calls Up delta = [] /\
    (faults s = [] -> ledger (db s) <> None -> error_count delta = 0%nat) /\
    (ledger (db s) = None -> error_count delta = 1%nat).
Proof.
  destruct s as [ms [sch [rows|]] snap fs tr]; destruct fs as [|[] fs]; run_read.
  all: do 2 eexists; (split; [rewrite <- ?app_assoc; reflexivity|]).
  all: split; [reflexivity|]; split; intros; try discriminate; try congruence;
    reflexivity.
Qed.

Lemma for_each_console_log {A : Type} (line : A -> string) (l : list A) (s : state) :
  for_each (fun x => console_log (line x)) l s
  = (Resolved tt,
     State (migrations s) (db s) (snapshot s) (faults s)
           (trace s ++ map (fun x => ConsoleLog (line x)) l)).
Proof.
  revert s. induction l as [|x l IH]; intros s.
  - cbn. rewrite app_nil_r. now destruct s.
  - rewrite for_each_cons. unfold console_log at 1, emit.
    rewrite IH. cbn. now rewrite <- app_assoc.
Qed.

Lemma import_all_frame (files : list (string * option Migration)) (s : state) :
  exists r ms, import_all files s = (r, set_migrations ms s).
Proof.
  revert s. induction files as [|[f [m|]] files IH]; intros s.
  - exists (Resolved tt), (migrations s). now destruct s.
  - cbn. unfold bind. destruct (IH (set_migrations (migrations s ++ [m]) s)) as (r & ms & ->).
    exists r, ms. reflexivity.
  - exists (Rejected (ImportError f)), (migrations s). now destruct s.
Qed.

Lemma loadMigrations_frame (dir : directory) (s : state) :
  exists r ms delta,
    loadMigrations dir s
    = (r, State ms (db s) (snapshot s) (faults s) (trace s ++ delta)) /\
    match r with
    | Resolved _ => delta = []
    | Rejected e => delta = [ConsoleError "Failed to load migrations:" e]
    end.
Proof.
  unfold loadMigrations, try_catch. destruct dir as [files|].
  - unfold bind at 1.
    destruct (import_all_frame (List.filter (fun f => is_migration_file (fst f)) files) s)
      as ([[]|e] & ms & ->).
    + exists (Resolved tt). eexists. exists []. split; [|reflexivity].
      unfold set_migrations. cbn. now rewrite app_nil_r.
    + exists (Rejected e). do 2 eexists. split; reflexivity.
  - exists (Rejected ReaddirError). do 2 eexists. split; reflexivity.
Qed.




(** X19: when loading fails, [runMigrations] exits with code 1 having
    logged the error twice; nothing was sent to the database, which is as
    it was. *)
Theorem runMigrations_load_failure
    (applied_at : string -> Z) (date_string : Z -> string) (dir : directory)
    (s s1 : state) (e : error) :
  loadMigrations dir
    (set_migrations [] (record_event (ConsoleLog "Starting database migrations...") s))
  = (Rejected e, s1) ->
  exists s',
    runMigrations applied_at date_string dir s = (Resolved (Some 1), s') /\
    db s' = db s /\
    faults s' = faults s /\
    trace s' = trace s ++ [ConsoleLog "Starting database migrations...";
                           ConsoleError "Failed to load migrations:" e;
                           ConsoleError "Migration failed:" e].
Proof.
  intros Hload. unfold runMigrations.
  unfold bind at 1, console_log at 1, emit at 1.
  unfold bind at 1, new_MigrationManager at 1.
  unfold try_catch. unfold bind at 1. rewrite Hload.
  match type of Hload with loadMigrations _ ?s0 = _ =>
    destruct (loadMigrations_frame dir s0) as (r & ms & dl & Hframe & Hdl) end.
  rewrite Hload in Hframe. injection Hframe as <- ->. subst dl.
  eexists. split; [reflexivity|]. cbn. repeat apply conj; auto.
  now rewrite <- !app_assoc.
Qed.

Lemma runMigrations_load_failure_witness :
  let applied_at := fun _ : string => 0 in
  let date_string := fun _ : Z => "Thu Jan 01 1970" in
  let s := applied_state in
  exists s',
    runMigrations applied_at date_string None s = (Resolved (Some 1), s') /\
    db s' = db s /\
    faults s' = faults s /\
    trace s' = trace s ++ [ConsoleLog "Starting database migrations...";
                           ConsoleError "Failed to load migrations:" ReaddirError;
                           ConsoleError "Migration failed:" ReaddirError].
Proof.
  intros applied_at date_string s.
  apply (runMigrations_load_failure applied_at date_string None s
           (snd (loadMigrations None
                   (set_migrations []
                      (record_event (ConsoleLog "Starting database migrations...") s))))
           ReaddirError).
  reflexivity.
Defined.

Lemma import_all_resolves (files : list (string * option Migration)) (s : state) :
  Forall (fun f => is_migration_file (fst f) = true -> snd f <> None) files ->
  import_all (List.filter (fun f => is_migration_file (fst f)) files) s
  = (Resolved tt, set_migrations (migrations s ++ discovered files) s).
Proof.
  intros Hall. revert s.
  induction Hall as [|[f o] files Hf Hall IH]; intros s; cbn [List.filter fst].
  - cbn. destruct s. unfold set_migrations. cbn. now rewrite app_nil_r.
  - cbn [fst snd] in Hf. destruct (is_migration_file f) eqn:E.
    + destruct o as [u|]; [|now elim Hf]. cbn [import_all discovered]. rewrite E.
      unfold bind. rewrite IH. destruct s. unfold set_migrations. cbn.
      now rewrite <- app_assoc.
    + rewrite IH. destruct o; cbn [discovered]; [rewrite E|]; reflexivity.
Qed.

(** X20: when every migration file imports, the versions of the units are
    all numeric and the database raises no
    fault, [runMigrations] runs to its end. The Manager holds the units
    discovered, sorted by version: units held by an earlier Manager play no
    part. [up()] is entered on the pending ones in that order, the schema
    grows by their statements and the ledger by their rows. If the ledger
    table existed nothing is logged as an error; on a database without the
    table, with a unit to load, exactly one error is logged, that of the
    first reading of the current version. *)
Theorem runMigrations_without_faults
    (applied_at : string -> Z) (date_string : Z -> string)
    (files : list (string * option Migration)) (s : state) :
  faults s = [] ->
  Forall (fun f => is_migration_file (fst f) = true -> snd f <> None) files ->
  Forall (fun m => numeric_version (meta_version (meta m)) = true) (discovered files) ->
  let units := JS.sort by_version (discovered files) in
  let rows := default ∅ (ledger (db s)) in
  let todo := pending rows units in
  exists s',
    runMigrations applied_at date_string (Some files) s = (Resolved None, s') /\
    migrations s' = units /\
    calls Up (drop (length (trace s)) (trace s')) = todo /\
    schema (db s') = schema (db s) ++ concat (map up_queries todo) /\
    default ∅ (ledger (db s')) = record_all rows todo /\
    (ledger (db s) <> None -> error_count (trace s') = error_count (trace s)) /\
    (ledger (db s) = None -> units <> [] ->
     error_count (trace s') = S (error_count (trace s))).
Proof.
  intros Hf Hfiles _. cbv zeta. unfold runMigrations.
  unfold bind at 1, console_log at 1, emit at 1.
  unfold bind at 1, new_MigrationManager at 1.
  unfold try_catch. unfold bind at 1.
  unfold loadMigrations, try_catch, bind at 1. rewrite (import_all_resolves _ _ Hfiles).
  fold by_version. destruct s as [ms d snap fs tr]. cbn [faults] in Hf. subst fs.
  unfold set_migrations, record_event. cbn [migrations db snapshot faults trace app].
  unfold bind at 1.
  match goal with |- context [getCurrentVersion applied_at ?st] =>
    destruct (getCurrentVersion_frame applied_at st) as (v1 & d1 & -> & Hc1 & He1 & He1') end.
  cbn [migrations db snapshot faults trace tl] in *.
  unfold bind at 1, console_log at 1, emit at 1.
  unfold bind at 1, console_log at 1, emit at 1.
  unfold bind at 1. rewrite applyMigrations_unfold.
  unfold record_event. cbn [migrations db snapshot faults trace].
  match goal with |- context [for_each apply_one ?l ?st] =>
    destruct (for_each_without_faults l st eq_refl)
      as (s3 & d2 & -> & Hf3 & Hm3 & Ht3 & He3 & Hc3 & Hsch3 & Hled3 & Hkeep3) end.
  cbv zeta in *. cbn [migrations db snapshot faults trace] in *.
  unfold bind at 1.
  destruct (getCurrentVersion_frame applied_at s3) as (v2 & d3 & -> & Hc4 & He4 & He4').
  unfold bind at 1, console_log at 1, emit at 1.
  unfold bind at 1, console_log at 1, emit at 1.
  unfold bind at 1.
  match goal with |- context [getMigrationHistory applied_at ?st] =>
    destruct (getMigrationHistory_frame applied_at st) as (h & d4 & -> & Hc5 & He5 & He5') end.
  unfold bind at 1. rewrite for_each_console_log.
  unfold bind, console_log, emit, ret, record_event.
  cbn [migrations db snapshot faults trace tl] in *.
  eexists. split; [reflexivity|].
  cbn [migrations db snapshot faults trace].
  rewrite Hf3 in *. cbn [tl] in *.
  assert (Hlogs : forall (A : Type) (line : A -> string) (l : list A),
             calls Up (map (fun x => ConsoleLog (line x)) l) = [] /\
             error_count (map (fun x => ConsoleLog (line x)) l) = 0%nat).
  { intros A line l. induction l as [|x l [IH1 IH2]]; cbn; auto. }
  destruct (Hlogs _ (history_line date_string) h) as [Hl1 Hl2].
  rewrite Ht3. rewrite <- !app_assoc. rewrite drop_app_length.
  rewrite !calls_app, !error_count_app, Hc1, Hc3, Hc4, Hc5, Hl1, Hl2, He3.
  cbn [calls error_count app]. rewrite !app_nil_r.
  repeat apply conj; auto.
  - intros Hsome. rewrite (He1 eq_refl Hsome).
    rewrite (He4 eq_refl), (He5 eq_refl); auto; lia.
  - intros Hnone Hunits. rewrite (He1' Hnone).
    rewrite (He4 eq_refl), (He5 eq_refl); auto; lia.
Qed.

Lemma runMigrations_without_faults_witness :
  let applied_at := fun _ : string => 0 in
  let date_string := fun _ : Z => "Thu Jan 01 1970" in
  let s := initial_state [LaterMigration] empty_database in
  let units := JS.sort by_version (discovered versions_listing) in
  let todo := pending ∅ units in
  exists s',
    runMigrations applied_at date_string (Some versions_listing) s = (Resolved None, s') /\
    migrations s' = units /\
    calls Up (drop (length (trace s)) (trace s')) = todo /\
    schema (db s') = schema (db s) ++ concat (map up_queries todo) /\
    default ∅ (ledger (db s')) = record_all ∅ todo /\
    (ledger (db s) <> None -> error_count (trace s') = error_count (trace s)) /\
    (ledger (db s) = None -> units <> [] ->
     error_count (trace s') = S (error_count (trace s))).
Proof.
  intros applied_at date_string s units todo.
  apply (runMigrations_without_faults applied_at date_string versions_listing s).
  - reflexivity.
  - repeat constructor; cbn; intros H; discriminate.
  - repeat constructor.
Defined.

Lemma hex_digit_is_hex_digit (n : nat) :
  (n < 16)%nat -> is_hex_digit (JSON.hex_digit n) = true.
Proof.
  intros H. do 16 (destruct n as [|n]; [reflexivity|]). lia.
Qed.

Lemma to_hex_format (n : nat) (z : Z) (acc : string) :
  String.length (SHA256.to_hex n z acc) = (n + String.length acc)%nat /\
  (forallb is_hex_digit (list_ascii_of_string acc) = true ->
   forallb is_hex_digit (list_ascii_of_string (SHA256.to_hex n z acc)) = true).
Proof.
  revert z acc. induction n as [|n IH]; intros z acc; cbn [SHA256.to_hex].
  - auto.
  - destruct (IH (z / 16) (String (JSON.hex_digit (Z.to_nat (z mod 16))) acc)) as [Hlen Hhex].
    split.
    + rewrite Hlen. cbn. lia.
    + intros Hacc. apply Hhex. cbn [list_ascii_of_string forallb].
      rewrite Hacc, hex_digit_is_hex_digit; [reflexivity|].
      pose proof (Z.mod_pos_bound z 16). lia.
Qed.

(** X21: the checksum of every unit is 64 lower-case hexadecimal
    digits. *)
Theorem generateChecksum_format (migration : Migration) :
  String.length (generateChecksum migration) = 64%nat /\
  forallb is_hex_digit (list_ascii_of_string (generateChecksum migration)) = true.
Proof.
  unfold generateChecksum, SHA256.hexdigest.
  destruct (to_hex_format 64 (SHA256.digest (SHA256.bytes_of_string
              (JSON.stringify
                 [("id", meta_id (meta migration)); ("name", meta_name (meta migration));
                  ("version", meta_version (meta migration));
                  ("description", meta_description (meta migration))]))) EmptyString)
    as [Hlen Hhex].
  split; [exact Hlen|]. apply Hhex. reflexivity.
Qed.

(** X22: [applyMigrations] does not look at the dependencies a unit
    declares: with no error from the database, a pending unit is applied
    and recorded although none of its dependencies is recorded, and they
    are still unrecorded afterwards. *)
Theorem applyMigrations_ignores_dependencies
    (m : Migration) (dependencies : list string) (s : state) :
  migrations s = [m] ->
  faults s = [] ->
  meta_dependencies (meta m) = Some dependencies ->
  ~ recorded (meta_id (meta m)) (db s) ->
  Forall (fun id => ~ recorded id (db s)) dependencies ->
  exists s',
    applyMigrations s = (Resolved tt, s') /\
    schema (db s') = schema (db s) ++ up_queries m /\
    recorded (meta_id (meta m)) (db s') /\
    Forall (fun id => id <> meta_id (meta m) -> ~ recorded id (db s')) dependencies.
Proof.
  intros Hms Hf _ Hnew Hdeps. rewrite applyMigrations_unfold, Hms.
  destruct (for_each_without_faults [m] s Hf)
    as (s' & delta & Hrun & _ & _ & _ & _ & _ & Hsch & Hled & Hsome).
  cbv zeta in *. cbn [pending] in *.
  assert (E : default ∅ (ledger (db s)) !! meta_id (meta m) = None).
  { destruct (ledger (db s)) as [rows|] eqn:El; cbn; [|apply lookup_empty].
    destruct (rows !! meta_id (meta m)) eqn:Er; [|reflexivity].
    elim Hnew. exists rows. split; [exact El|]. rewrite Er. eauto. }
  rewrite E in *. cbn [map concat record_all fold_left] in *. rewrite app_nil_r in Hsch.
  destruct (ledger (db s')) as [rows'|] eqn:El'; [|elim Hsome; auto; left; discriminate].
  change (default ∅ (Some rows')) with rows' in Hled. subst rows'.
  exists s'. split; [exact Hrun|]. split; [exact Hsch|]. split.
  - eexists. split; [exact El'|]. rewrite lookup_insert_eq. eauto.
  - eapply Forall_impl; [exact Hdeps|]. cbn. intros id Hid Hne (rows' & Hrows' & Hsome').
    rewrite El' in Hrows'. injection Hrows' as <-.
    rewrite lookup_insert_ne in Hsome' by congruence.
    apply Hid. destruct (ledger (db s)) as [rows|] eqn:El; cbn in Hsome'.
    + exists rows. auto.
    + rewrite lookup_empty in Hsome'. now destruct Hsome'.
Qed.

Lemma applyMigrations_ignores_dependencies_witness :
  let m := LaterMigration in
  let s := initial_state [m] empty_database in
  exists s',
    applyMigrations s = (Resolved tt, s') /\
    schema (db s') = schema (db s) ++ up_queries m /\
    recorded (meta_id (meta m)) (db s') /\
    Forall (fun id => id <> meta_id (meta m) -> ~ recorded id (db s'))
           ["002_query_optimization"].
Proof.
  intros m s.
  apply (applyMigrations_ignores_dependencies m ["002_query_optimization"] s).
  - reflexivity.
  - reflexivity.
  - reflexivity.
  - intros (rows & H & _). discriminate.
  - repeat constructor. intros (rows & H & _). discriminate.
Defined.
